(** * majeto-tools: the PDF sort-and-rename route

    A shallow embedding of the logic-bearing code of the [/pdf-sort/] route
    (segment sanitizer, status resolver, export gate, upload limit and the
    filename builder with its collision loop), followed by the properties
    the specification states about it, and by the remaining handlers and
    effects of the page, the events the rendered page offers, and the small
    CSV route, with properties read off the code.

    JavaScript strings are sequences of UTF-16 code units; a code unit is an
    [N] and a string a [list N].  Regular expressions are embedded as syntax
    with a backtracking matcher, so that [String.prototype.replace] and
    [RegExp.prototype.test] are modelled once and the source's regex
    literals are transcribed one for one. *)

From Stdlib Require Import ZArith NArith List Ascii String Bool Lia.
From Stdlib Require Import DecimalString DecimalN DecimalZ DecimalFacts.
From stdpp Require Import base gmap list.

Import ListNotations.
Local Open Scope list_scope.

(** ** Strings *)

Abbreviation jsstring := (list N).

(** An ASCII literal as a JavaScript string. *)
Definition js (s : string) : jsstring :=
  List.map N_of_ascii (list_ascii_of_string s).

Definition hyphen : N := 45%N.
Definition dot : N := 46%N.
Definition quote : N := 34%N.

(** A character class given by the list of its members. *)
Definition one_of (members : jsstring) (c : N) : bool :=
  existsb (N.eqb c) members.

(** [\s] and the characters [String.prototype.trim] strips: WhiteSpace and
    LineTerminator of ECMA-262 (TAB, LF, VT, FF, CR, SP, NBSP, U+1680,
    U+2000..U+200A, U+2028, U+2029, U+202F, U+205F, U+3000, U+FEFF). *)
Definition is_ws (c : N) : bool :=
  one_of [9; 10; 11; 12; 13; 32; 160; 5760; 8232; 8233; 8239; 8287; 12288; 65279]%N c
  || ((8192 <=? c)%N && (c <=? 8202)%N).

(** [\d] *)
Definition is_digit (c : N) : bool := (48 <=? c)%N && (c <=? 57)%N.

Definition is_hyphen (c : N) : bool := N.eqb c hyphen.

(** The bracket class of the third replace of [sanitizeSegment]: slash,
    backslash, colon, star, question mark, double quote, angle brackets and
    the vertical bar. *)
Definition is_forbidden (c : N) : bool :=
  one_of (js "/\:*?" ++ quote :: js "<>|") c.

Fixpoint drop_while (p : N -> bool) (s : jsstring) : jsstring :=
  match s with
  | [] => []
  | x :: s' => if p x then drop_while p s' else s
  end.

(** [String.prototype.trim] *)
Definition trim (s : jsstring) : jsstring :=
  rev (drop_while is_ws (rev (drop_while is_ws s))).

(** ** Regular expressions

    The fragment of ECMAScript regular expressions the route uses, without
    flags other than [g]: assertions [^] and [$], a character class, a class
    repeated [{n}] times, a greedy class [+], sequence and alternation. *)

Module Regex.

Inductive regex :=
| Bol
| Eol
| Cls (c : N -> bool)
| Rep (c : N -> bool) (n : nat)
| Plus (c : N -> bool)
| Seq (r1 r2 : regex)
| Alt (r1 r2 : regex).

(** The matcher is written with continuations, as the ECMAScript semantics
    is: [k pos rest] decides whether the rest of the pattern matches from
    index [pos], where [rest] is the input from that index on.  It returns
    the end index of the match. *)
Definition cont := nat -> jsstring -> option nat.

Fixpoint exec_rep (c : N -> bool) (n pos : nat) (s : jsstring) (k : cont)
  : option nat :=
  match n with
  | O => k pos s
  | S n' =>
      match s with
      | x :: s' => if c x then exec_rep c n' (S pos) s' k else None
      | [] => None
      end
  end.

(** Greedy [c+]: take one more character if the whole still matches,
    otherwise stop here. *)
Fixpoint exec_plus (c : N -> bool) (pos : nat) (s : jsstring) (k : cont)
  : option nat :=
  match s with
  | [] => None
  | x :: s' =>
      if c x then
        match exec_plus c (S pos) s' k with
        | Some e => Some e
        | None => k (S pos) s'
        end
      else None
  end.

Fixpoint exec (r : regex) (pos : nat) (s : jsstring) (k : cont) : option nat :=
  match r with
  | Bol => if Nat.eqb pos 0 then k pos s else None
  | Eol => match s with [] => k pos s | _ :: _ => None end
  | Cls c =>
      match s with
      | x :: s' => if c x then k (S pos) s' else None
      | [] => None
      end
  | Rep c n => exec_rep c n pos s k
  | Plus c => exec_plus c pos s k
  | Seq r1 r2 => exec r1 pos s (fun p t => exec r2 p t k)
  | Alt r1 r2 =>
      match exec r1 pos s k with
      | Some e => Some e
      | None => exec r2 pos s k
      end
  end.

(** A match of the whole pattern starting at index [pos]. *)
Definition match_at (r : regex) (pos : nat) (s : jsstring) : option nat :=
  exec r pos s (fun e _ => Some e).

(** [r.test(s)] for a regex without the [g] flag: the first start index,
    from 0 up to the length of the input, at which the pattern matches. *)
Fixpoint search (r : regex) (pos : nat) (s : jsstring) : bool :=
  match match_at r pos s with
  | Some _ => true
  | None =>
      match s with
      | [] => false
      | _ :: s' => search r (S pos) s'
      end
  end.

Definition test (r : regex) (s : jsstring) : bool := search r 0 s.

(** [s.replace(r, by)] for a regex with the [g] flag.  [skip] counts the
    characters of the last match still to be passed over; an empty match
    advances by one character, which is kept. *)
Fixpoint replace_from (r : regex) (by_ : jsstring) (pos skip : nat)
  (s : jsstring) : jsstring :=
  match skip with
  | S skip' =>
      match s with
      | [] => []
      | _ :: s' => replace_from r by_ (S pos) skip' s'
      end
  | O =>
      match match_at r pos s with
      | Some e =>
          by_ ++
          match s with
          | [] => []
          | x :: s' =>
              if Nat.eqb e pos then x :: replace_from r by_ (S pos) 0 s'
              else replace_from r by_ (S pos) (e - pos - 1) s'
          end
      | None =>
          match s with
          | [] => []
          | x :: s' => x :: replace_from r by_ (S pos) 0 s'
          end
      end
  end.

Definition replace (r : regex) (by_ : jsstring) (s : jsstring) : jsstring :=
  replace_from r by_ 0 0 s.

End Regex.

Import Regex.

(** ** Utility functions of the route *)

(** [/\s+/g] *)
Definition re_spaces : regex := Plus is_ws.
(** The global regex of the single class [is_forbidden]. *)
Definition re_forbidden : regex := Cls is_forbidden.
(** [/-+/g] *)
Definition re_hyphens : regex := Plus is_hyphen.
(** [/^-+|-+$/g] *)
Definition re_edge_hyphens : regex :=
  Alt (Seq Bol (Plus is_hyphen)) (Seq (Plus is_hyphen) Eol).
(** [DATE_REGEX = /^\d{4}-\d{2}-\d{2}$/] *)
Definition DATE_REGEX : regex :=
  Seq Bol (Seq (Rep is_digit 4) (Seq (Cls is_hyphen) (Seq (Rep is_digit 2)
    (Seq (Cls is_hyphen) (Seq (Rep is_digit 2) Eol))))).

Definition MAX_FILES : nat := 100.

Definition sanitizeSegment (segment : jsstring) : jsstring :=
  replace re_edge_hyphens []
    (replace re_hyphens [hyphen]
      (replace re_forbidden [hyphen]
        (replace re_spaces [hyphen]
          (trim segment)))).

Definition validateSegment (segment : jsstring) : bool :=
  (0 <? length (sanitizeSegment segment))%nat.

(** ** Host string operations *)

(** Template-literal rendering of an integral Number in decimal.  Counters,
    lengths and sizes of the route are non-negative integers far below
    2^53, where a Number is exact. *)
Definition dec (n : N) : jsstring := js (NilEmpty.string_of_uint (N.to_uint n)).

Definition dec_int (z : Z) : jsstring := js (NilEmpty.string_of_int (Z.to_int z)).

(** [s.lastIndexOf(c)] for a one-character [c]: the greatest index holding
    [c], or -1. *)
Fixpoint lastIndexOf_from (i : Z) (found : Z) (s : jsstring) (c : N) : Z :=
  match s with
  | [] => found
  | x :: s' => lastIndexOf_from (i + 1) (if N.eqb x c then i else found) s' c
  end.

Definition lastIndexOf (s : jsstring) (c : N) : Z := lastIndexOf_from 0 (-1) s c.

(** [s.substring(start, end)]: both indices are clamped to [0, length] and
    swapped when out of order. *)
Definition clamp (s : jsstring) (i : Z) : nat :=
  Nat.min (Z.to_nat i) (length s).

Definition substring (s : jsstring) (start end_ : Z) : jsstring :=
  let a := Nat.min (clamp s start) (clamp s end_) in
  let b := Nat.max (clamp s start) (clamp s end_) in
  firstn (b - a) (skipn a s).

(** [s.substring(start)] *)
Definition substring_from (s : jsstring) (start : Z) : jsstring :=
  skipn (clamp s start) s.

(** [s.endsWith(suffix)] *)
Definition endsWith (s suffix : jsstring) : bool :=
  bool_decide (skipn (length s - length suffix) s = suffix).

(** ** Types of the route *)

Record File := {
  name : jsstring;
  size : N;
  lastModified : Z;
  type : jsstring;
  (** what [arrayBuffer()] resolves to; a failing read is not modelled *)
  bytes : list N
}.

Record FileData := {
  file : File;
  key : jsstring;
  isPdf : bool;
  url : option jsstring
}.

Record PdfMetadata := {
  distributor : jsstring;
  invoiceNumber : jsstring;
  date : jsstring
}.

Inductive PdfStatus := ready | missing | invalid.

Definition PdfStatus_eqb (a b : PdfStatus) : bool :=
  match a, b with
  | ready, ready | missing, missing | invalid, invalid => true
  | _, _ => false
  end.

Record StatusResult := {
  status : PdfStatus;
  message : option jsstring
}.

(** The [useState] cells of [RouteComponent] that the handlers below read
    or write.  [metadata] is the object [Record<string, PdfMetadata>]; it
    is only ever indexed by file keys, which contain a vertical bar and so
    never name an inherited property. *)
Record AppState := {
  files : list FileData;
  selectedPdfKey : option jsstring;
  metadata : gmap jsstring PdfMetadata;
  pageNumber : N;
  isAskingPrefix : bool;
  prefixValue : jsstring;
  error : jsstring
}.

Definition getFileKey (f : File) : jsstring :=
  name f ++ js "|" ++ dec (size f) ++ js "|" ++ dec_int (lastModified f).

Definition pdfFiles (st : AppState) : list FileData :=
  List.filter (fun f => isPdf f) (files st).

Definition otherFiles (st : AppState) : list FileData :=
  List.filter (fun f => negb (isPdf f)) (files st).

(** JavaScript truthiness of a string. *)
Definition truthy (s : jsstring) : bool :=
  match s with [] => false | _ :: _ => true end.

(** ** Upload *)

Definition set_files (v : list FileData) (st : AppState) : AppState :=
  {| files := v; selectedPdfKey := selectedPdfKey st; metadata := metadata st;
     pageNumber := pageNumber st; isAskingPrefix := isAskingPrefix st;
     prefixValue := prefixValue st; error := error st |}.

Definition set_error (v : jsstring) (st : AppState) : AppState :=
  {| files := files st; selectedPdfKey := selectedPdfKey st;
     metadata := metadata st; pageNumber := pageNumber st;
     isAskingPrefix := isAskingPrefix st; prefixValue := prefixValue st;
     error := v |}.

Definition set_selection (k : jsstring) (st : AppState) : AppState :=
  {| files := files st; selectedPdfKey := Some k; metadata := metadata st;
     pageNumber := 1%N; isAskingPrefix := isAskingPrefix st;
     prefixValue := prefixValue st; error := error st |}.

Definition set_prefix_dialog (asking : bool) (prefix : jsstring)
  (st : AppState) : AppState :=
  {| files := files st; selectedPdfKey := selectedPdfKey st;
     metadata := metadata st; pageNumber := pageNumber st;
     isAskingPrefix := asking; prefixValue := prefix; error := error st |}.

Definition limit_message (adding current : nat) : jsstring :=
  js "Cannot add " ++ dec (N.of_nat adding) ++ js " files. Limit is "
  ++ dec (N.of_nat MAX_FILES) ++ js " files total. Currently: "
  ++ dec (N.of_nat current).

(** The [FileData] built for an uploaded file.  [toLowerCase] is the
    host's [String.prototype.toLowerCase]. *)
Definition toFileData (toLowerCase : jsstring -> jsstring) (f : File)
  : FileData :=
  {| file := f;
     key := getFileKey f;
     isPdf := bool_decide (type f = js "application/pdf")
              || endsWith (toLowerCase (name f)) (js ".pdf");
     url := None |}.

(** [fileList] is [None] for [null]. *)
Definition handleFileSelect (toLowerCase : jsstring -> jsstring)
  (st : AppState) (fileList : option (list File)) : AppState :=
  match fileList with
  | None => st
  | Some [] => st
  | Some newFiles =>
      if (MAX_FILES <? length (files st) + length newFiles)%nat then
        set_error (limit_message (length newFiles) (length (files st))) st
      else
        set_files (files st ++ List.map (toFileData toLowerCase) newFiles)
          (set_error [] st)
  end.

(** ** Status *)

Definition getPdfStatus (st : AppState) (key : jsstring)
  (includePrefix : bool) : StatusResult :=
  match metadata st !! key with
  | None =>
      {| status := missing; message := Some (js "No metadata") |}
  | Some meta =>
      if negb (truthy (distributor meta)) || negb (truthy (invoiceNumber meta))
         || negb (truthy (date meta)) then
        {| status := missing; message := Some (js "Missing fields") |}
      else if negb (test DATE_REGEX (date meta)) then
        {| status := invalid;
           message := Some (js "Invalid date format (YYYY-MM-DD)") |}
      else if negb (validateSegment (distributor meta)) then
        {| status := invalid;
           message :=
             Some (js "Invalid distributor (empty after sanitization)") |}
      else if negb (validateSegment (invoiceNumber meta)) then
        {| status := invalid;
           message :=
             Some (js "Invalid invoice number (empty after sanitization)") |}
      else if includePrefix && truthy (prefixValue st)
              && negb (validateSegment (prefixValue st)) then
        {| status := invalid; message := Some (js "Invalid prefix") |}
      else
        {| status := ready; message := None |}
  end.

Definition is_ready (st : AppState) (includePrefix : bool) (pdf : FileData)
  : bool :=
  PdfStatus_eqb (status (getPdfStatus st (key pdf) includePrefix)) ready.

Definition allPdfsReady (st : AppState) : bool :=
  forallb (is_ready st true) (pdfFiles st).

(** The second component is the key whose list entry the timer scrolls
    into view, if any. *)
Definition handleExportClick (st : AppState) : AppState * option jsstring :=
  if negb (allPdfsReady st) then
    match List.find (fun pdf => negb (is_ready st false pdf)) (pdfFiles st) with
    | Some firstBlocking =>
        (set_selection (key firstBlocking) st, Some (key firstBlocking))
    | None => (st, None)
    end
  else (set_prefix_dialog true [] st, None).

Definition handleCancelExport (st : AppState) : AppState :=
  set_prefix_dialog false [] st.

(** ** Export *)

(** Outcome of a piece of the [try] block: a value, an exception (caught by
    the handler's [catch]), or the loop bound of the model exhausted. *)
Inductive res (A : Type) :=
| Ok (a : A)
| Throw
| Timeout.
Arguments Ok {A} a.
Arguments Throw {A}.
Arguments Timeout {A}.

Definition bind {A B : Type} (m : res A) (f : A -> res B) : res B :=
  match m with
  | Ok a => f a
  | Throw => Throw
  | Timeout => Timeout
  end.

Notation "'let*' x ':=' m 'in' f" := (bind m (fun x => f))
  (at level 10, x name, m at level 100, f at level 200).

(** [for (const item of items) body] over an accumulated state. *)
Fixpoint for_of {A S : Type} (body : S -> A -> res S) (items : list A) (s : S)
  : res S :=
  match items with
  | [] => Ok s
  | item :: rest => let* s' := body s item in for_of body rest s'
  end.

(** The two locals the loops of the export share.  [zipContents] is kept
    as the log of the assignments [zipContents[filename] = bytes] the loops
    make, oldest first: the names assigned and the bytes assigned to them.
    What the object holds after these assignments is [zipObject] below.
    [usedNames] is the [Set] of names. *)
Record Zip := {
  zipContents : list (jsstring * list N);
  usedNames : gset jsstring
}.

Definition emptyZip : Zip := {| zipContents := []; usedNames := ∅ |}.

(** [usedNames.add(filename); zipContents[filename] = buffer]: the name
    joins the set and the assignment joins the log. *)
Definition put (filename : jsstring) (buffer : list N) (z : Zip) : Zip :=
  {| zipContents := zipContents z ++ [(filename, buffer)];
     usedNames := {[ filename ]} ∪ usedNames z |}.

(** [while (usedNames.has(filename)) { filename = numbered(counter); counter++ }],
    at most [fuel] tests of the condition; yields the final [filename]. *)
Fixpoint while_used (fuel : nat) (used : gset jsstring)
  (numbered : N -> jsstring) (filename : jsstring) (counter : N)
  : res jsstring :=
  match fuel with
  | O => Timeout
  | S fuel' =>
      if decide (filename ∈ used) then
        while_used fuel' used numbered (numbered counter) (counter + 1)%N
      else Ok filename
  end.

(** The name the collision loop of a non-PDF file tries for [counter]. *)
Definition numbered_other (name : jsstring) (counter : N) : jsstring :=
  let dotIndex := lastIndexOf name dot in
  if (0 <? dotIndex)%Z then
    let base := substring name 0 dotIndex in
    let ext := substring_from name dotIndex in
    base ++ js "-" ++ dec counter ++ ext
  else
    name ++ js "-" ++ dec counter.

(** Body of the loop over [otherFiles]. *)
Definition add_other (fuel : nat) (z : Zip) (fileData : FileData) : res Zip :=
  let buffer := bytes (file fileData) in
  let* filename := while_used fuel (usedNames z)
                     (numbered_other (name (file fileData)))
                     (name (file fileData)) 2%N in
  Ok (put filename buffer z).

(** The part of a PDF's name before the extension and the counter. *)
Definition pdf_stem (sanitizedPrefix : jsstring) (meta : PdfMetadata)
  : jsstring :=
  sanitizedPrefix ++ js "-" ++ sanitizeSegment (distributor meta) ++ js "-"
  ++ sanitizeSegment (invoiceNumber meta) ++ js "-" ++ trim (date meta).

Definition numbered_pdf (sanitizedPrefix : jsstring) (meta : PdfMetadata)
  (counter : N) : jsstring :=
  pdf_stem sanitizedPrefix meta ++ js "-" ++ dec counter ++ js ".pdf".

(** Body of the loop over [pdfFiles].  Reading a field of an absent
    metadata record throws a TypeError. *)
Definition add_pdf (fuel : nat) (md : gmap jsstring PdfMetadata)
  (sanitizedPrefix : jsstring) (z : Zip) (fileData : FileData) : res Zip :=
  match md !! key fileData with
  | None => Throw
  | Some meta =>
      let* filename := while_used fuel (usedNames z)
                         (numbered_pdf sanitizedPrefix meta)
                         (pdf_stem sanitizedPrefix meta ++ js ".pdf") 2%N in
      Ok (put filename (bytes (file fileData)) z)
  end.

(** The [try] block up to the call of [zipSync]. *)
Definition build_zip (fuel : nat) (st : AppState) (sanitizedPrefix : jsstring)
  : res Zip :=
  let* z := for_of (add_other fuel) (otherFiles st) emptyZip in
  for_of (add_pdf fuel (metadata st) sanitizedPrefix) (pdfFiles st) z.

(** What a completed [try] block has done: [entries] is the log of the
    assignments made to [zipContents] before [zipSync] is called (the
    object it receives is [zipObject entries]), and [download] the name
    given to the download link.  The encoder and the download are taken to
    succeed. *)
Record Archive := {
  entries : list (jsstring * list N);
  download : jsstring
}.

(** [handleConfirmExport].  [cause] is the message the engine gives the
    TypeError; [None] is returned only when [fuel] is too small for a
    collision loop. *)
Definition handleConfirmExport (cause : jsstring) (fuel : nat) (st : AppState)
  : option (AppState * option Archive) :=
  let sanitizedPrefix := sanitizeSegment (prefixValue st) in
  if negb (truthy sanitizedPrefix) then
    Some (set_error (js "Prefix is invalid (empty after sanitization)") st,
          None)
  else
    match build_zip fuel st sanitizedPrefix with
    | Ok z =>
        Some (set_prefix_dialog false [] (set_error [] st),
              Some {| entries := zipContents z;
                      download := sanitizedPrefix ++ js "-export.zip" |})
    | Throw => Some (set_error (js "Export failed: " ++ cause) st, None)
    | Timeout => None
    end.

(** The names given to the entries of an archive, in the order written. *)
Definition names (a : Archive) : list jsstring := List.map fst (entries a).

(** ** The object the names are assigned to

    [zipContents] starts as [{}], a plain object whose prototype is
    [Object.prototype].  The one accessor property of that prototype is
    [__proto__]: the assignment [zipContents['__proto__'] = bytes] calls
    its setter, which makes the byte array the prototype of the object and
    creates no property.  Under any other name the assignment creates the
    own property, or overwrites it.

    Once the prototype is a byte array an assignment may create a property,
    be ignored (a numeric name outside the array) or throw (a name such as
    [length], which the array inherits as a getter without setter); that
    case is not followed further.  The loops above log every assignment as
    made, so they are exact for lists without a file named [__proto__].

    [Plain] keeps the own properties, not the order in which the encoder
    enumerates them (integer-like names first, then the order assigned). *)
Inductive JsObject :=
| Plain (own : gmap jsstring (list N))
| Reparented.

Definition proto_name : jsstring := js "__proto__".

(** [o[filename] = bytes] *)
Definition assign (o : JsObject) (write : jsstring * list N) : JsObject :=
  match o with
  | Plain own =>
      if bool_decide (fst write = proto_name) then Reparented
      else Plain (<[fst write := snd write]> own)
  | Reparented => Reparented
  end.

(** The object [{}] after a log of assignments. *)
Definition zipObject (writes : list (jsstring * list N)) : JsObject :=
  fold_left assign writes (Plain ∅).

(** ** The specification's wording

    The rules of the specification written out as it states them, to be
    compared with the functions above. *)

Module Spec.

(** Collapse each run of characters of class [p] to a single [by_];
    [inrun] tells that the previous character belonged to a run. *)
Fixpoint collapse_runs (p : N -> bool) (by_ : N) (inrun : bool) (s : jsstring)
  : jsstring :=
  match s with
  | [] => []
  | x :: s' =>
      if p x then
        if inrun then collapse_runs p by_ true s'
        else by_ :: collapse_runs p by_ true s'
      else x :: collapse_runs p by_ false s'
  end.

(** Replace each character of class [p] with [by_]. *)
Definition replace_each (p : N -> bool) (by_ : N) (s : jsstring) : jsstring :=
  List.map (fun x => if p x then by_ else x) s.

(** Strip the leading and the trailing characters of class [p]. *)
Definition strip (p : N -> bool) (s : jsstring) : jsstring :=
  rev (drop_while p (rev (drop_while p s))).

(** 4.1: trim surrounding whitespace; collapse runs of whitespace to a
    single hyphen; replace each forbidden character with a hyphen; collapse
    runs of hyphens to one; strip leading and trailing hyphens. *)
Definition sanitize (raw : jsstring) : jsstring :=
  strip is_hyphen
    (collapse_runs is_hyphen hyphen false
      (replace_each is_forbidden hyphen
        (collapse_runs is_ws hyphen false
          (strip is_ws raw)))).

(** A segment is valid iff its sanitized form is non-empty. *)
Definition valid (segment : jsstring) : Prop := sanitize segment <> [].

(** Four digits, hyphen, two digits, hyphen, two digits. *)
Definition date_shaped (d : jsstring) : bool :=
  match d with
  | [y1; y2; y3; y4; h1; m1; m2; h2; dd1; dd2] =>
      is_digit y1 && is_digit y2 && is_digit y3 && is_digit y4
      && is_hyphen h1
      && is_digit m1 && is_digit m2
      && is_hyphen h2
      && is_digit dd1 && is_digit dd2
  | _ => false
  end.

Definition is_empty (s : jsstring) : bool :=
  match s with [] => true | _ :: _ => false end.

(** A rule of 4.2: whether it fails, and what is reported if it does. *)
Definition rule := (bool * StatusResult)%type.

Definition report (s : PdfStatus) (m : string) : StatusResult :=
  {| status := s; message := Some (js m) |}.

(** The first failing rule determines the result; [ready] if none fails. *)
Fixpoint first_failing (rules : list rule) : StatusResult :=
  match rules with
  | [] => {| status := ready; message := None |}
  | (fails, result) :: rest => if fails then result else first_failing rest
  end.

Definition field (f : PdfMetadata -> jsstring) (record : option PdfMetadata)
  : jsstring :=
  match record with Some r => f r | None => [] end.

(** 4.2, rules 1 to 6 in order. *)
Definition resolveStatus (record : option PdfMetadata) (includePrefix : bool)
  (prefix : jsstring) : StatusResult :=
  first_failing
    [ (bool_decide (record = None), report missing "No metadata");
      (is_empty (field distributor record)
       || is_empty (field invoiceNumber record)
       || is_empty (field date record),
       report missing "Missing fields");
      (negb (date_shaped (field date record)),
       report invalid "Invalid date format (YYYY-MM-DD)");
      (is_empty (sanitize (field distributor record)),
       report invalid "Invalid distributor (empty after sanitization)");
      (is_empty (sanitize (field invoiceNumber record)),
       report invalid "Invalid invoice number (empty after sanitization)");
      (includePrefix && negb (is_empty prefix) && is_empty (sanitize prefix),
       report invalid "Invalid prefix") ].

(** 4.3: the name of a renamable item without counter and extension. *)
Definition renamed (prefix : jsstring) (record : PdfMetadata) : jsstring :=
  sanitizeSegment prefix ++ js "-" ++ sanitizeSegment (distributor record)
  ++ js "-" ++ sanitizeSegment (invoiceNumber record) ++ js "-"
  ++ trim (date record).

(** 4.3, collision policy: [r] is what a [candidate] gets against the names
    [used] already assigned: the candidate itself when it is free, otherwise
    [numbered k] for the least counter [k], starting at 2, whose name is
    free. *)
Definition chosen (used : gset jsstring) (candidate : jsstring)
  (numbered : N -> jsstring) (r : jsstring) : Prop :=
  (r ∉ used)
  /\ (((candidate ∉ used) /\ r = candidate)
      \/ ((candidate ∈ used)
          /\ exists k, (2 <= k)%N /\ r = numbered k
             /\ forall j, (2 <= j < k)%N -> numbered j ∈ used)).

(** The policy applied to one item: a passthrough item starts from its
    original name, a renamable item from its derived name. *)
Definition chosen_for (md : gmap jsstring PdfMetadata) (prefix : jsstring)
  (used : gset jsstring) (item : FileData) (r : jsstring) : Prop :=
  if isPdf item then
    exists record, md !! key item = Some record
      /\ chosen used (renamed prefix record ++ js ".pdf")
           (fun k => renamed prefix record ++ js "-" ++ dec k ++ js ".pdf") r
  else
    chosen used (name (file item)) (numbered_other (name (file item))) r.

(** The entries of an archive follow the policy over [items], processed in
    order against the set of names assigned so far. *)
Fixpoint follows (md : gmap jsstring PdfMetadata) (prefix : jsstring)
  (used : gset jsstring) (items : list FileData)
  (es : list (jsstring * list N)) : Prop :=
  match items, es with
  | [], [] => True
  | item :: items', (n, b) :: es' =>
      b = bytes (file item)
      /\ chosen_for md prefix used item n
      /\ follows md prefix ({[ n ]} ∪ used) items' es'
  | _, _ => False
  end.

End Spec.

(** ** Auxiliary functions of the proofs *)

(** Length of the longest prefix of [s] in class [p]. *)
Fixpoint run (p : N -> bool) (s : jsstring) : nat :=
  match s with
  | [] => 0
  | x :: s' => if p x then S (run p s') else 0
  end.

(** [s] without its trailing characters of class [p]. *)
Fixpoint drop_end (p : N -> bool) (s : jsstring) : jsstring :=
  match s with
  | [] => []
  | x :: s' => if forallb p s then [] else x :: drop_end p s'
  end.

(** No two adjacent hyphens. *)
Definition NoDouble (s : jsstring) : Prop :=
  forall a b, s <> a ++ hyphen :: hyphen :: b.

(** Free of the characters of class [p]. *)
Definition free_of (p : N -> bool) (s : jsstring) : Prop :=
  Forall (fun x => p x = false) s.

(** The shape of every result of the sanitizer. *)
Record tidy (r : jsstring) : Prop := {
  tidy_ws : free_of is_ws r;
  tidy_forbidden : free_of is_forbidden r;
  tidy_double : NoDouble r;
  tidy_head : forall t, r <> hyphen :: t;
  tidy_last : forall t, r <> t ++ [hyphen]
}.

(** Both loops of the export as one body. *)
Definition add_item (fuel : nat) (md : gmap jsstring PdfMetadata)
  (sanitizedPrefix : jsstring) (z : Zip) (item : FileData) : res Zip :=
  if isPdf item then add_pdf fuel md sanitizedPrefix z item
  else add_other fuel z item.

(** [usedNames] holds exactly the names written, none twice. *)
Definition consistent (z : Zip) : Prop :=
  usedNames z = list_to_set (List.map fst (zipContents z))
  /\ NoDup (List.map fst (zipContents z)).

Definition has_record (md : gmap jsstring PdfMetadata) (item : FileData)
  : Prop :=
  is_Some (md !! key item).

(** A renamable item needs its record; a passthrough item needs nothing. *)
Definition recorded_if_pdf (md : gmap jsstring PdfMetadata) (item : FileData)
  : Prop :=
  isPdf item = true -> has_record md item.

(** The state a successful export leaves. *)
Definition exported (st : AppState) : AppState :=
  set_prefix_dialog false [] (set_error [] st).

(** The continuation of a pattern that ends in [$]. *)
Definition at_end : cont :=
  fun e t => match t with [] => Some e | _ :: _ => None end.

(** ** Sample sessions *)

Module Sample.

Definition a_file (nm : string) (content : list N) : File :=
  {| name := js nm; size := N.of_nat (length content);
     lastModified := 1700000000000%Z; type := []; bytes := content |}.

(** The ASCII part of the host's [toLowerCase]. *)
Definition toLowerCase (s : jsstring) : jsstring :=
  List.map (fun c => if (65 <=? c)%N && (c <=? 90)%N then (c + 32)%N else c) s.

Definition upload (f : File) : FileData := toFileData toLowerCase f.

Definition a_txt1 : FileData := upload (a_file "a.txt" [1%N]).
Definition readme1 : FileData := upload (a_file "README" [5%N]).
Definition readme2 : FileData := upload (a_file "README" [6%N; 6%N]).
Definition gitignore1 : FileData := upload (a_file ".gitignore" [7%N]).
Definition gitignore2 : FileData := upload (a_file ".gitignore" [8%N; 8%N]).
Definition scan1 : FileData := upload (a_file "scan1.pdf" [3%N]).
Definition scan2 : FileData := upload (a_file "scan2.PDF" [4%N; 4%N]).

Definition acme1 : PdfMetadata :=
  {| distributor := js "ACME / co"; invoiceNumber := js "12";
     date := js "2024-01-02" |}.
(** What the metadata effect creates for a new PDF. *)
Definition blank : PdfMetadata :=
  {| distributor := []; invoiceNumber := []; date := [] |}.

Definition session (fs : list FileData) (md : gmap jsstring PdfMetadata)
  (asking : bool) (prefix : jsstring) (err : jsstring) : AppState :=
  {| files := fs; selectedPdfKey := None; metadata := md; pageNumber := 1%N;
     isAskingPrefix := asking; prefixValue := prefix; error := err |}.


(** Names without an extension, each twice. *)
Definition dotless : AppState :=
  session [readme1; gitignore1; readme2; gitignore2] ∅ true (js "p") [].

(** No file yet, and the message of a rejected upload of 101 files. *)
Definition after_rejection : AppState :=
  session [] ∅ false [] (limit_message 101 0).

End Sample.

(** ** The other handlers of the route *)

Definition set_metadata (v : gmap jsstring PdfMetadata) (st : AppState)
  : AppState :=
  {| files := files st; selectedPdfKey := selectedPdfKey st; metadata := v;
     pageNumber := pageNumber st; isAskingPrefix := isAskingPrefix st;
     prefixValue := prefixValue st; error := error st |}.

Definition set_pageNumber (v : N) (st : AppState) : AppState :=
  {| files := files st; selectedPdfKey := selectedPdfKey st;
     metadata := metadata st; pageNumber := v;
     isAskingPrefix := isAskingPrefix st; prefixValue := prefixValue st;
     error := error st |}.

(** [setPrefixValue(e.target.value)] of the prefix input. *)
Definition set_prefixValue (v : jsstring) (st : AppState) : AppState :=
  set_prefix_dialog (isAskingPrefix st) v st.

Definition isAtLimit (st : AppState) : bool :=
  (MAX_FILES <=? length (files st))%nat.

(** [pdfFiles.find((f) => f.key === selectedPdfKey)] *)
Definition selectedPdf (st : AppState) : option FileData :=
  List.find (fun f => bool_decide (selectedPdfKey st = Some (key f)))
    (pdfFiles st).

(** Revoking a blob URL has no effect on the state and is left out. *)
Definition handleRemoveFile (st : AppState) (k : jsstring) : AppState :=
  {| files := List.filter (fun f => negb (bool_decide (key f = k))) (files st);
     selectedPdfKey :=
       if bool_decide (selectedPdfKey st = Some k) then None
       else selectedPdfKey st;
     metadata := delete k (metadata st);
     pageNumber := pageNumber st; isAskingPrefix := isAskingPrefix st;
     prefixValue := prefixValue st; error := error st |}.

Definition handleClearAll (st : AppState) : AppState :=
  {| files := []; selectedPdfKey := None; metadata := ∅;
     pageNumber := pageNumber st; isAskingPrefix := isAskingPrefix st;
     prefixValue := prefixValue st; error := [] |}.

Definition handlePdfSelect (st : AppState) (k : jsstring) : AppState :=
  set_selection k st.

(** [keyof PdfMetadata] *)
Inductive MetaField := Distributor | InvoiceNumber | Date.

(** [{ ...meta, [field]: value }] *)
Definition set_field (field : MetaField) (value : jsstring)
  (meta : PdfMetadata) : PdfMetadata :=
  match field with
  | Distributor =>
      {| distributor := value; invoiceNumber := invoiceNumber meta;
         date := date meta |}
  | InvoiceNumber =>
      {| distributor := distributor meta; invoiceNumber := value;
         date := date meta |}
  | Date =>
      {| distributor := distributor meta; invoiceNumber := invoiceNumber meta;
         date := value |}
  end.

(** [handleMetadataChange].  Without a record under [k] the source stores
    an object holding the one field only, which is no [PdfMetadata]; that
    outcome is [None]. *)
Definition handleMetadataChange (st : AppState) (k : jsstring)
  (field : MetaField) (value : jsstring) : option AppState :=
  match metadata st !! k with
  | Some meta =>
      Some (set_metadata (<[k := set_field field value meta]> (metadata st))
              st)
  | None => None
  end.

(** [Math.max(1, prev - 1)]; the difference of a page number below 1 is
    below 1 either way. *)
Definition goToPrevPage (st : AppState) : AppState :=
  set_pageNumber (N.max 1 (pageNumber st - 1)) st.

(** [numPages] is the cell set by [onDocumentLoadSuccess]; [None] is
    [null], and 0 is falsy as well. *)
Definition goToNextPage (numPages : option N) (st : AppState) : AppState :=
  set_pageNumber
    (match numPages with
     | Some n =>
         if N.eqb n 0 then pageNumber st
         else N.min n (pageNumber st + 1)
     | None => pageNumber st
     end) st.

(** The record the metadata effect creates. *)
Definition emptyMetadata : PdfMetadata :=
  {| distributor := []; invoiceNumber := []; date := [] |}.

(** Body of the effect's [forEach]: the copy [newMetadata] and the flag
    [hasChanges]. *)
Definition init_one (acc : gmap jsstring PdfMetadata * bool) (pdf : FileData)
  : gmap jsstring PdfMetadata * bool :=
  match fst acc !! key pdf with
  | None => (<[key pdf := emptyMetadata]> (fst acc), true)
  | Some _ => acc
  end.

(** The effect [Initialize metadata for new PDFs]. *)
Definition initMetadata (st : AppState) : AppState :=
  let result := fold_left init_one (pdfFiles st) (metadata st, false) in
  if snd result then set_metadata (fst result) st else st.

(** The count of the [PDF(s) need attention] line. *)
Definition needAttention (st : AppState) : nat :=
  length (List.filter (fun pdf => negb (is_ready st false pdf)) (pdfFiles st)).

(** ** Events and renders

    What the rendered page lets the user do, and what a handler followed by
    the effects of the next render makes of the state.  An export is taken
    to run to its end before the next event. *)

Inductive Event :=
| SelectFiles (fileList : option (list File))
| ClearAll
| RemoveFile (k : jsstring)
| SelectPdf (k : jsstring)
| ChangeMetadata (field : MetaField) (value : jsstring)
| PrevPage
| NextPage (numPages : option N)
| ClickExport
| TypePrefix (value : jsstring)
| ConfirmExport
| CancelExport.

Definition listed (k : jsstring) (l : list FileData) : bool :=
  existsb (fun f => bool_decide (key f = k)) l.

Definition nonempty {A : Type} (l : list A) : bool :=
  match l with [] => false | _ :: _ => true end.

(** The control of an event is rendered and not disabled. *)
Definition available (st : AppState) (ev : Event) : bool :=
  match ev with
  | SelectFiles _ => negb (isAtLimit st)
  | ClearAll => nonempty (files st)
  | RemoveFile k => listed k (files st)
  | SelectPdf k => listed k (pdfFiles st)
  | ChangeMetadata _ _ =>
      match selectedPdf st with Some _ => true | None => false end
  | PrevPage =>
      match selectedPdf st with
      | Some _ => negb (pageNumber st <=? 1)%N
      | None => false
      end
  | NextPage numPages =>
      match selectedPdf st, numPages with
      | Some _, Some n => negb (N.eqb n 0) && negb (n <=? pageNumber st)%N
      | _, _ => false
      end
  | ClickExport =>
      nonempty (pdfFiles st) && negb (isAskingPrefix st) && allPdfsReady st
  | TypePrefix _ => nonempty (pdfFiles st) && isAskingPrefix st
  | ConfirmExport =>
      nonempty (pdfFiles st) && isAskingPrefix st
      && validateSegment (prefixValue st)
  | CancelExport => nonempty (pdfFiles st) && isAskingPrefix st
  end.

(** The state a handler leaves. *)
Definition handled (toLowerCase : jsstring -> jsstring) (st : AppState)
  (ev : Event) (st' : AppState) : Prop :=
  match ev with
  | SelectFiles fileList => st' = handleFileSelect toLowerCase st fileList
  | ClearAll => st' = handleClearAll st
  | RemoveFile k => st' = handleRemoveFile st k
  | SelectPdf k => st' = handlePdfSelect st k
  | ChangeMetadata field value =>
      exists pdf, selectedPdf st = Some pdf
        /\ handleMetadataChange st (key pdf) field value = Some st'
  | PrevPage => st' = goToPrevPage st
  | NextPage numPages => st' = goToNextPage numPages st
  | ClickExport => st' = fst (handleExportClick st)
  | TypePrefix value => st' = set_prefixValue value st
  | ConfirmExport =>
      exists cause fuel archive,
        handleConfirmExport cause fuel st = Some (st', archive)
  | CancelExport => st' = handleCancelExport st
  end.

(** The effect [Create blob URLs for PDFs] on one entry: a PDF without a
    URL gets one from [URL.createObjectURL], which is never empty. *)
Definition with_url (fd fd' : FileData) : Prop :=
  if isPdf fd && negb (match url fd with Some u => truthy u | None => false end)
  then exists u, truthy u = true
         /\ fd' = {| file := file fd; key := key fd; isPdf := isPdf fd;
                     url := Some u |}
  else fd' = fd.

(** The effects that follow the render of [st], [prev] being the state of
    the render before: each runs when its dependency, a length, has
    changed. *)
Definition rendered (prev st st' : AppState) : Prop :=
  let st1 :=
    if Nat.eqb (length (pdfFiles prev)) (length (pdfFiles st)) then st
    else initMetadata st in
  exists fs,
    (if Nat.eqb (length (files prev)) (length (files st)) then fs = files st
     else Forall2 with_url (files st) fs)
    /\ st' = set_files fs st1.

Definition initialState : AppState :=
  {| files := []; selectedPdfKey := None; metadata := ∅; pageNumber := 1%N;
     isAskingPrefix := false; prefixValue := []; error := [] |}.

Inductive reachable (toLowerCase : jsstring -> jsstring) : AppState -> Prop :=
| reach_initial : reachable toLowerCase initialState
| reach_event st ev st1 st2 :
    reachable toLowerCase st ->
    available st ev = true ->
    handled toLowerCase st ev st1 ->
    rendered st st1 st2 ->
    reachable toLowerCase st2.

(** What every reachable state satisfies. *)
Record sound (st : AppState) : Prop := {
  sound_limit : length (files st) <= MAX_FILES;
  sound_prefix : isAskingPrefix st = false -> prefixValue st = [];
  sound_records : Forall (has_record (metadata st)) (pdfFiles st);
  sound_selection :
    forall k, selectedPdfKey st = Some k -> listed k (pdfFiles st) = true
}.

(** A character that survives sanitizing: no whitespace, not forbidden,
    not a hyphen. *)
Definition solid (c : N) : bool :=
  negb (is_ws c) && negb (is_forbidden c) && negb (is_hyphen c).

(** A character that may stand in a file name. *)
Definition legal (c : N) : bool := negb (is_ws c) && negb (is_forbidden c).

Definition bar : N := 124%N.

(** ** The CSV route *)

Module Cm2pohoda.

(** [s.includes(sub)] *)
Fixpoint startsWith (s sub : jsstring) : bool :=
  match sub, s with
  | [], _ => true
  | _ :: _, [] => false
  | y :: sub', x :: s' => N.eqb x y && startsWith s' sub'
  end.

Fixpoint includes (s sub : jsstring) : bool :=
  startsWith s sub
  || match s with
     | [] => false
     | _ :: s' => includes s' sub
     end.

Record ParsedCSVData := {
  fields : list jsstring;
  rows : list (list jsstring)
}.

Record State := {
  selectedFile : option File;
  parsedData : option ParsedCSVData;
  error : jsstring
}.

Definition initial : State :=
  {| selectedFile := None; parsedData := None; error := [] |}.

(** [handleFile] up to the call of the parser. *)
Definition handleFile (st : State) (f : File) : State :=
  if negb (endsWith (name f) (js ".csv")) && negb (includes (type f) (js "csv"))
  then {| selectedFile := selectedFile st; parsedData := parsedData st;
          error := js "Please select a valid CSV file" |}
  else {| selectedFile := Some f; parsedData := None; error := [] |}.

(** The parser's [complete] callback; [data] is [results.data]. *)
Definition complete (st : State) (data : option (list (list jsstring)))
  : State :=
  match data with
  | Some (first :: rest) =>
      {| selectedFile := selectedFile st;
         parsedData := Some {| fields := first; rows := rest |};
         error := error st |}
  | _ =>
      {| selectedFile := selectedFile st; parsedData := parsedData st;
         error := js "CSV file is empty" |}
  end.

(** The parser's [error] callback. *)
Definition failed (st : State) (msg : jsstring) : State :=
  {| selectedFile := selectedFile st; parsedData := parsedData st;
     error := js "Failed to parse CSV: " ++ msg |}.

(** [FileUploader]: the input's change and the drop both hand over the
    first file, if there is one. *)
Definition firstFile (fileList : option (list File)) : option File :=
  match fileList with
  | Some (f :: _) => Some f
  | _ => None
  end.

Definition onFileSelect (st : State) (fileList : option (list File)) : State :=
  match firstFile fileList with
  | Some f => handleFile st f
  | None => st
  end.

End Cm2pohoda.

(** ** A sample run of the page *)

Module Trace.

Definition text_file : File := Sample.a_file "a.txt" [1%N].
Definition pdf_file : File := Sample.a_file "scan1.pdf" [3%N].

(** The uploaded PDF once the URL effect has run. *)
Definition scan1 : FileData :=
  {| file := pdf_file; key := getFileKey pdf_file; isPdf := true;
     url := Some (js "blob:1") |}.

(** A text file and a PDF uploaded together, after the effects. *)
Definition uploaded : AppState :=
  set_files [Sample.a_txt1; scan1]
    (initMetadata
       (handleFileSelect Sample.toLowerCase initialState
          (Some [text_file; pdf_file]))).

Definition selected : AppState := handlePdfSelect uploaded (key scan1).

Definition edit (field : MetaField) (value : string) (st : AppState)
  : AppState :=
  match handleMetadataChange st (key scan1) field (js value) with
  | Some st' => st'
  | None => st
  end.

Definition filled : AppState :=
  edit Date "2024-01-02" (edit InvoiceNumber "12" (edit Distributor "ACME" selected)).

Definition asking : AppState := fst (handleExportClick filled).

Definition typed : AppState := set_prefixValue (js "p") asking.

(** A second PDF, uploaded while the prefix dialog is open. *)
Definition late_file : File := Sample.a_file "scan2.pdf" [4%N; 4%N].

Definition scan2 : FileData :=
  {| file := late_file; key := getFileKey late_file; isPdf := true;
     url := Some (js "blob:2") |}.

(** The state after that upload and the effects of the next render: the
    metadata effect has given the new PDF its blank record. *)
Definition late : AppState :=
  set_files [Sample.a_txt1; scan1; scan2]
    (initMetadata
       (handleFileSelect Sample.toLowerCase typed (Some [late_file]))).

(** Two passthrough files of different names and one complete PDF. *)
Definition distinct : AppState :=
  Sample.session [Sample.a_txt1; Sample.scan1; Sample.readme1]
    (<[key Sample.scan1 := Sample.acme1]> ∅) true (js "p") [].

End Trace.

(** * Properties *)

(** ** The regex transcriptions against the wording *)

Section Matcher.

Variable p : N -> bool.

Lemma plus_greedy s pos :
  match_at (Plus p) pos s
  = match run p s with 0 => None | S n => Some (pos + S n) end.
Proof.
  unfold match_at. cbn [exec]. revert pos.
  induction s as [|x s IH]; intros pos; simpl; [reflexivity|].
  destruct (p x); [|reflexivity].
  rewrite IH. destruct (run p s); f_equal; lia.
Qed.

Lemma plus_to_end s pos :
  exec_plus p pos s at_end
  = if forallb p s && negb (Spec.is_empty s) then Some (pos + length s)
    else None.
Proof.
  revert pos. induction s as [|x s IH]; intros pos; simpl; [reflexivity|].
  destruct (p x); simpl; [|reflexivity].
  rewrite IH. destruct s as [|y s]; simpl.
  - f_equal. lia.
  - destruct (p y && forallb p s); simpl; [f_equal; lia | reflexivity].
Qed.

Lemma replace_plus by_ s :
  (forall pos, replace_from (Plus p) [by_] pos 0 s
               = Spec.collapse_runs p by_ false s)
  /\ (forall pos, replace_from (Plus p) [by_] pos (run p s) s
                  = Spec.collapse_runs p by_ true s).
Proof.
  induction s as [|x s [IH0 IH1]].
  - split; intros pos; reflexivity.
  - assert (H0 : forall pos, replace_from (Plus p) [by_] pos 0 (x :: s)
                             = Spec.collapse_runs p by_ false (x :: s)).
    { intros pos. cbn [replace_from]. rewrite plus_greedy. simpl.
      destruct (p x) eqn:Hx.
      - replace (pos + S (run p s) =? pos)%nat with false
          by (symmetry; apply Nat.eqb_neq; lia).
        replace (pos + S (run p s) - pos - 1) with (run p s) by lia.
        simpl. f_equal. apply IH1.
      - f_equal. apply IH0. }
    split; [exact H0|].
    intros pos. destruct (p x) eqn:Hx.
    + simpl. rewrite Hx. apply IH1.
    + assert (Hr : run p (x :: s) = 0) by (simpl; rewrite Hx; reflexivity).
      rewrite Hr, H0. simpl. rewrite Hx. reflexivity.
Qed.

Lemma replace_cls by_ s pos :
  replace_from (Cls p) [by_] pos 0 s = Spec.replace_each p by_ s.
Proof.
  revert pos. induction s as [|x s IH]; intros pos; [reflexivity|].
  cbn [replace_from]. unfold match_at. simpl.
  destruct (p x).
  - replace (S pos =? pos)%nat with false
      by (symmetry; apply Nat.eqb_neq; lia).
    replace (S pos - pos - 1) with 0 by lia.
    simpl. f_equal. apply IH.
  - f_equal. apply IH.
Qed.

End Matcher.

(** *** The edge-hyphen regex *)

Lemma match_edge_later pos s :
  pos <> 0 ->
  match_at re_edge_hyphens pos s
  = if forallb is_hyphen s && negb (Spec.is_empty s)
    then Some (pos + length s) else None.
Proof.
  intros Hpos. unfold match_at, re_edge_hyphens. cbn [exec].
  destruct (Nat.eqb_spec pos 0) as [E|_]; [contradiction|].
  change (fun (p0 : nat) (t : jsstring) =>
            match t with [] => Some p0 | _ :: _ => None end) with at_end.
  apply plus_to_end.
Qed.

Lemma match_edge_first s :
  match_at re_edge_hyphens 0 s
  = match run is_hyphen s with 0 => None | S n => Some (S n) end.
Proof.
  unfold match_at, re_edge_hyphens. cbn [exec Nat.eqb].
  pose proof (plus_greedy is_hyphen s 0) as G.
  unfold match_at in G. cbn [exec] in G. rewrite G.
  destruct s as [|x s]; [reflexivity|]. simpl.
  destruct (is_hyphen x); reflexivity.
Qed.

Lemma replace_edge_skip_all s pos :
  replace_from re_edge_hyphens [] pos (length s) s = [].
Proof.
  revert pos. induction s as [|x s IH]; intros pos; simpl.
  - destruct pos; reflexivity.
  - apply IH.
Qed.

Lemma replace_edge_later s pos :
  pos <> 0 ->
  replace_from re_edge_hyphens [] pos 0 s = drop_end is_hyphen s.
Proof.
  revert pos. induction s as [|x s IH]; intros pos Hpos.
  - cbn [replace_from]. rewrite match_edge_later by assumption. reflexivity.
  - cbn [replace_from]. rewrite match_edge_later by assumption.
    cbn [drop_end Spec.is_empty negb]. rewrite andb_true_r.
    destruct (forallb is_hyphen (x :: s)).
    + replace (pos + length (x :: s) =? pos)%nat with false
        by (symmetry; apply Nat.eqb_neq; simpl; lia).
      replace (pos + length (x :: s) - pos - 1) with (length s)
        by (simpl; lia).
      apply replace_edge_skip_all.
    + f_equal. apply IH. lia.
Qed.

Lemma replace_edge_run s pos :
  pos <> 0 ->
  replace_from re_edge_hyphens [] pos (run is_hyphen s) s
  = drop_end is_hyphen (drop_while is_hyphen s).
Proof.
  revert pos. induction s as [|x s IH]; intros pos Hpos.
  - apply replace_edge_later; assumption.
  - cbn [run drop_while]. destruct (is_hyphen x) eqn:Hx.
    + cbn [replace_from]. apply IH. lia.
    + apply replace_edge_later; assumption.
Qed.

Lemma replace_edge_first s :
  replace re_edge_hyphens [] s = drop_end is_hyphen (drop_while is_hyphen s).
Proof.
  unfold replace. destruct s as [|x s]; [reflexivity|].
  cbn [replace_from]. rewrite match_edge_first. simpl.
  destruct (is_hyphen x) eqn:Hx.
  - simpl. replace (run is_hyphen s - 0) with (run is_hyphen s) by lia.
    apply replace_edge_run. lia.
  - simpl. rewrite Hx. simpl. f_equal. apply replace_edge_later. lia.
Qed.

(** *** Dropping from the end *)

Lemma drop_while_app_all p (a b : jsstring) :
  forallb p a = true -> drop_while p (a ++ b) = drop_while p b.
Proof.
  induction a as [|x a IH]; simpl; [reflexivity|].
  destruct (p x); simpl; [exact IH | discriminate].
Qed.

Lemma drop_while_app_stop p (a b : jsstring) :
  forallb p a = false -> drop_while p (a ++ b) = drop_while p a ++ b.
Proof.
  induction a as [|x a IH]; simpl; [discriminate|].
  destruct (p x); simpl; [exact IH | reflexivity].
Qed.

Lemma drop_while_all p (s : jsstring) :
  forallb p s = true -> drop_while p s = [].
Proof.
  induction s as [|x s IH]; simpl; [reflexivity|].
  destruct (p x); simpl; [exact IH | discriminate].
Qed.

Lemma forallb_rev p (s : jsstring) : forallb p (rev s) = forallb p s.
Proof.
  induction s as [|x s IH]; [reflexivity|].
  simpl. rewrite forallb_app, IH. simpl. rewrite andb_true_r. apply andb_comm.
Qed.

Lemma drop_end_rev p (s : jsstring) :
  drop_end p s = rev (drop_while p (rev s)).
Proof.
  induction s as [|x s IH]; [reflexivity|].
  cbn [drop_end rev].
  destruct (forallb p (x :: s)) eqn:Hall.
  - rewrite drop_while_all; [reflexivity|].
    rewrite <- (forallb_rev p (x :: s)) in Hall. exact Hall.
  - simpl in Hall. destruct (forallb p s) eqn:Hs.
    + rewrite andb_true_r in Hall.
      rewrite drop_while_app_all by (rewrite forallb_rev; exact Hs).
      simpl. rewrite Hall. simpl.
      rewrite IH, drop_while_all by (rewrite forallb_rev; exact Hs).
      reflexivity.
    + rewrite drop_while_app_stop by (rewrite forallb_rev; exact Hs).
      rewrite rev_app_distr. simpl. f_equal. exact IH.
Qed.

Lemma replace_edge_spec s :
  replace re_edge_hyphens [] s = Spec.strip is_hyphen s.
Proof.
  rewrite replace_edge_first, drop_end_rev. reflexivity.
Qed.

(** The source's pipeline is the specification's list of rules. *)
Lemma sanitizeSegment_spec s : sanitizeSegment s = Spec.sanitize s.
Proof.
  unfold sanitizeSegment, Spec.sanitize.
  rewrite replace_edge_spec.
  unfold replace, re_hyphens, re_forbidden, re_spaces.
  rewrite (proj1 (replace_plus is_hyphen hyphen _)).
  rewrite replace_cls.
  rewrite (proj1 (replace_plus is_ws hyphen _)).
  reflexivity.
Qed.

(** *** The date regex *)

Lemma search_anchored s pos : pos <> 0 -> search DATE_REGEX pos s = false.
Proof.
  revert pos. induction s as [|x s IH]; intros pos Hpos;
    unfold DATE_REGEX in *; cbn [search match_at exec];
    destruct (Nat.eqb_spec pos 0); try contradiction; [reflexivity|].
  apply IH. lia.
Qed.

Lemma match_date d :
  match_at DATE_REGEX 0 d = if Spec.date_shaped d then Some 10 else None.
Proof.
  unfold match_at, DATE_REGEX. cbn [exec exec_rep Nat.eqb].
  do 10 (destruct d as [|? d];
         [cbn [exec exec_rep Spec.date_shaped];
          repeat match goal with
                 | |- context [if ?c then _ else _] => destruct c
                 end; reflexivity|]).
  destruct d as [|? d]; cbn [exec exec_rep Spec.date_shaped andb];
    repeat match goal with
           | |- context [if is_digit ?c then _ else _] =>
               destruct (is_digit c); cbn [andb]; try reflexivity
           | |- context [if is_hyphen ?c then _ else _] =>
               destruct (is_hyphen c); cbn [andb]; try reflexivity
           end.
Qed.

Lemma DATE_REGEX_test d : test DATE_REGEX d = Spec.date_shaped d.
Proof.
  unfold test. destruct d as [|x d]; cbn [search]; rewrite match_date.
  - reflexivity.
  - destruct (Spec.date_shaped (x :: d)); [reflexivity|].
    apply search_anchored. lia.
Qed.

(** ** What the sanitizer's result looks like *)

Section Stripping.

Variable p : N -> bool.

Lemma drop_while_suffix (s : jsstring) : exists a, s = a ++ drop_while p s.
Proof.
  induction s as [|x s [a IH]]; [exists []; reflexivity|].
  simpl. destruct (p x).
  - exists (x :: a). simpl. f_equal. exact IH.
  - exists []. reflexivity.
Qed.

Lemma drop_while_head (s : jsstring) x t :
  drop_while p s = x :: t -> p x = false.
Proof.
  induction s as [|y s IH]; simpl; [discriminate|].
  destruct (p y) eqn:Hy; [exact IH|].
  intros E. injection E as -> _. exact Hy.
Qed.

Lemma drop_while_keep (s : jsstring) :
  (forall x t, s = x :: t -> p x = false) -> drop_while p s = s.
Proof.
  destruct s as [|x s]; [reflexivity|].
  intros H. simpl. rewrite (H x s eq_refl). reflexivity.
Qed.

Lemma strip_infix (s : jsstring) : exists a b, s = a ++ Spec.strip p s ++ b.
Proof.
  unfold Spec.strip.
  destruct (drop_while_suffix s) as [a Ha].
  destruct (drop_while_suffix (rev (drop_while p s))) as [c Hc].
  exists a, (rev c).
  rewrite <- rev_app_distr, <- Hc, rev_involutive. exact Ha.
Qed.

Lemma strip_last (s : jsstring) x t :
  Spec.strip p s = t ++ [x] -> p x = false.
Proof.
  unfold Spec.strip. intros E.
  apply (f_equal (@rev N)) in E.
  rewrite rev_involutive, rev_app_distr in E. simpl in E.
  exact (drop_while_head _ _ _ E).
Qed.

Lemma strip_head (s : jsstring) x t :
  Spec.strip p s = x :: t -> p x = false.
Proof.
  intros E.
  destruct (drop_while_suffix (rev (drop_while p s))) as [c Hc].
  apply (f_equal (@rev N)) in Hc.
  rewrite rev_involutive, rev_app_distr in Hc.
  fold (Spec.strip p s) in Hc. rewrite E in Hc. simpl in Hc.
  exact (drop_while_head _ _ _ Hc).
Qed.

Lemma strip_id (s : jsstring) :
  (forall x t, s = x :: t -> p x = false) ->
  (forall x t, s = t ++ [x] -> p x = false) ->
  Spec.strip p s = s.
Proof.
  intros Hhead Hlast. unfold Spec.strip.
  rewrite (drop_while_keep s Hhead).
  rewrite drop_while_keep; [apply rev_involutive|].
  intros x t E. apply (Hlast x (rev t)).
  rewrite <- (rev_involutive s), E. reflexivity.
Qed.

Lemma strip_Forall (P : N -> Prop) (s : jsstring) :
  Forall P s -> Forall P (Spec.strip p s).
Proof.
  destruct (strip_infix s) as (a & b & E). intros H. rewrite E in H.
  apply Forall_app in H as [_ H]. apply Forall_app in H as [H _]. exact H.
Qed.

Lemma strip_free (s : jsstring) : free_of p s -> Spec.strip p s = s.
Proof.
  intros H. apply strip_id; intros x t ->.
  - inversion H; assumption.
  - apply Forall_app in H as [_ H]. inversion H; assumption.
Qed.

Lemma collapse_Forall (P : N -> Prop) by_ inrun (s : jsstring) :
  P by_ -> Forall P s -> Forall P (Spec.collapse_runs p by_ inrun s).
Proof.
  intros Hby H. revert inrun.
  induction H as [|x s Hx _ IH]; intros inrun; simpl; [constructor|].
  destruct (p x); [destruct inrun|]; try constructor; auto.
Qed.

Lemma collapse_removes by_ inrun (s : jsstring) :
  p by_ = false -> free_of p (Spec.collapse_runs p by_ inrun s).
Proof.
  intros Hby. revert inrun.
  induction s as [|x s IH]; intros inrun; simpl; [constructor|].
  destruct (p x) eqn:Hx; [destruct inrun|]; try constructor; auto; apply IH.
Qed.

Lemma collapse_free by_ inrun (s : jsstring) :
  free_of p s -> Spec.collapse_runs p by_ inrun s = s.
Proof.
  intros H. revert inrun.
  induction H as [|x s Hx _ IH]; intros inrun; simpl; [reflexivity|].
  rewrite Hx. f_equal. apply IH.
Qed.

Lemma replace_each_Forall (P : N -> Prop) by_ (s : jsstring) :
  P by_ -> Forall P s -> Forall P (Spec.replace_each p by_ s).
Proof.
  intros Hby H. induction H as [|x s Hx _ IH]; simpl; constructor; auto.
  destruct (p x); assumption.
Qed.

Lemma replace_each_removes by_ (s : jsstring) :
  p by_ = false -> free_of p (Spec.replace_each p by_ s).
Proof.
  intros Hby. induction s as [|x s IH]; simpl; constructor; auto.
  destruct (p x) eqn:Hx; assumption.
Qed.

Lemma replace_each_free by_ (s : jsstring) :
  free_of p s -> Spec.replace_each p by_ s = s.
Proof.
  intros H. induction H as [|x s Hx _ IH]; simpl; [reflexivity|].
  rewrite Hx. f_equal. exact IH.
Qed.

End Stripping.

Lemma is_hyphen_eq x : is_hyphen x = true <-> x = hyphen.
Proof. apply N.eqb_eq. Qed.

Lemma NoDouble_tail x s : NoDouble (x :: s) -> NoDouble s.
Proof. intros H a b ->. exact (H (x :: a) b eq_refl). Qed.

Lemma NoDouble_infix a s b : NoDouble (a ++ s ++ b) -> NoDouble s.
Proof.
  intros H c d ->. apply (H (a ++ c) (d ++ b)).
  rewrite <- !app_assoc. reflexivity.
Qed.

Lemma collapse_hyphens_shape s inrun :
  NoDouble (Spec.collapse_runs is_hyphen hyphen inrun s)
  /\ (inrun = true ->
      forall t, Spec.collapse_runs is_hyphen hyphen inrun s <> hyphen :: t).
Proof.
  revert inrun. induction s as [|x s IH]; intros inrun; simpl.
  - split; [intros [|? ?] ?; discriminate | intros _ t; discriminate].
  - destruct (is_hyphen x) eqn:Hx.
    + destruct inrun; [apply IH|].
      destruct (IH true) as [Hnd Hhd]. split; [|discriminate].
      intros [|y a] b E; simpl in E.
      * injection E as E. exact (Hhd eq_refl _ E).
      * injection E as _ E. exact (Hnd a b E).
    + destruct (IH false) as [Hnd _]. split.
      * intros [|y a] b E; simpl in E.
        -- injection E as -> _. discriminate.
        -- injection E as _ E. exact (Hnd a b E).
      * intros _ t E. injection E as -> _. discriminate.
Qed.

Lemma collapse_hyphens_id s inrun :
  NoDouble s -> (inrun = true -> forall t, s <> hyphen :: t) ->
  Spec.collapse_runs is_hyphen hyphen inrun s = s.
Proof.
  revert inrun. induction s as [|x s IH]; intros inrun Hnd Hhd; simpl;
    [reflexivity|].
  destruct (is_hyphen x) eqn:Hx.
  - apply is_hyphen_eq in Hx. subst x.
    destruct inrun; [exfalso; exact (Hhd eq_refl s eq_refl)|].
    f_equal. apply IH; [exact (NoDouble_tail _ _ Hnd)|].
    intros _ t ->. exact (Hnd [] t eq_refl).
  - f_equal. apply IH; [exact (NoDouble_tail _ _ Hnd)|discriminate].
Qed.

Lemma sanitize_tidy s : tidy (Spec.sanitize s).
Proof.
  unfold Spec.sanitize. split.
  - apply strip_Forall, collapse_Forall; [reflexivity|].
    apply replace_each_Forall; [reflexivity|].
    apply collapse_removes. reflexivity.
  - apply strip_Forall, collapse_Forall; [reflexivity|].
    apply replace_each_removes. reflexivity.
  - match goal with |- NoDouble (Spec.strip _ ?t) =>
      destruct (strip_infix is_hyphen t) as (a & b & E);
      apply (NoDouble_infix a _ b); rewrite <- E
    end.
    apply collapse_hyphens_shape.
  - intros t E. apply strip_head in E. discriminate.
  - intros t E. apply strip_last in E. discriminate.
Qed.

Lemma sanitize_fixes_tidy r : tidy r -> Spec.sanitize r = r.
Proof.
  intros [Hws Hforb Hnd Hhd Hlast]. unfold Spec.sanitize.
  rewrite (strip_free _ _ Hws), (collapse_free _ _ _ _ Hws).
  rewrite (replace_each_free _ _ _ Hforb).
  rewrite (collapse_hyphens_id _ _ Hnd) by discriminate.
  apply strip_id.
  - intros x t -> . destruct (is_hyphen x) eqn:Hx; [|reflexivity].
    apply is_hyphen_eq in Hx. subst x. destruct (Hhd t eq_refl).
  - intros x t ->. destruct (is_hyphen x) eqn:Hx; [|reflexivity].
    apply is_hyphen_eq in Hx. subst x. destruct (Hlast t eq_refl).
Qed.

(** C4: [sanitizeSegment] applies exactly the five rules of 4.1 in order;
    the three sample inputs give the stated results; and a segment is valid
    iff its sanitized form is non-empty, so the empty and the blank segment
    are invalid. *)
Theorem sanitize_applies_rules_in_order :
  (forall s, sanitizeSegment s = Spec.sanitize s)
  /\ sanitizeSegment (js "  a//b::c  ") = js "a-b-c"
  /\ sanitizeSegment (js "") = js ""
  /\ sanitizeSegment (js "   ") = js ""
  /\ (forall s, validateSegment s = true <-> sanitizeSegment s <> [])
  /\ (forall s, validateSegment s = true <-> Spec.valid s)
  /\ validateSegment (js "") = false
  /\ validateSegment (js "   ") = false.
Proof.
  assert (V : forall s, validateSegment s = true <-> sanitizeSegment s <> []).
  { intros s. unfold validateSegment.
    destruct (sanitizeSegment s); simpl; split; intros H;
      try discriminate; try reflexivity.
    destruct (H eq_refl). }
  repeat split; try reflexivity; try apply V; try apply sanitizeSegment_spec.
  - unfold Spec.valid. rewrite <- sanitizeSegment_spec. apply V.
  - unfold Spec.valid. rewrite <- sanitizeSegment_spec. apply V.
Qed.

(** C5: [sanitizeSegment] is idempotent, and its result never has a leading
    hyphen, a trailing hyphen or two adjacent hyphens. *)
Theorem sanitize_idempotent_no_stray_hyphens (x : jsstring) :
  sanitizeSegment (sanitizeSegment x) = sanitizeSegment x
  /\ (forall t, sanitizeSegment x <> hyphen :: t)
  /\ (forall t, sanitizeSegment x <> t ++ [hyphen])
  /\ (forall a b, sanitizeSegment x <> a ++ hyphen :: hyphen :: b).
Proof.
  rewrite !sanitizeSegment_spec.
  pose proof (sanitize_tidy x) as T.
  split; [exact (sanitize_fixes_tidy _ T)|].
  destruct T as [_ _ Hnd Hhd Hlast]. auto.
Qed.

(** ** The status resolver *)

Lemma truthy_is_empty s : truthy s = negb (Spec.is_empty s).
Proof. destruct s; reflexivity. Qed.

Lemma validate_is_empty s :
  validateSegment s = negb (Spec.is_empty (Spec.sanitize s)).
Proof.
  unfold validateSegment. rewrite sanitizeSegment_spec.
  destruct (Spec.sanitize s); reflexivity.
Qed.

(** C3: for every metadata store, key, [includePrefix] flag and prefix, the
    status resolver returns the status and message of the first failing rule
    of 4.2, the rules taken in the order 1 to 6, and [ready] when none
    fails. *)
Theorem getPdfStatus_first_failing_rule (st : AppState) (k : jsstring)
  (includePrefix : bool) :
  getPdfStatus st k includePrefix
  = Spec.resolveStatus (metadata st !! k) includePrefix (prefixValue st).
Proof.
  unfold getPdfStatus, Spec.resolveStatus.
  destruct (metadata st !! k) as [meta|]; [|reflexivity].
  cbn [Spec.first_failing Spec.field bool_decide decide_rel].
  rewrite !truthy_is_empty, !negb_involutive, DATE_REGEX_test,
    !validate_is_empty, !negb_involutive.
  reflexivity.
Qed.

(** ** Decimal rendering and the numbered names *)

Lemma js_inj a b : js a = js b -> a = b.
Proof.
  unfold js. intros E.
  rewrite <- (string_of_list_ascii_of_string a),
    <- (string_of_list_ascii_of_string b).
  f_equal. revert E.
  generalize (list_ascii_of_string a) (list_ascii_of_string b).
  intros l. induction l as [|x l IH]; intros [|y m] E; simpl in E;
    try discriminate; [reflexivity|].
  injection E as Exy E. f_equal; [|exact (IH _ E)].
  rewrite <- (ascii_N_embedding x), <- (ascii_N_embedding y), Exy.
  reflexivity.
Qed.

Lemma dec_inj j k : dec j = dec k -> j = k.
Proof.
  unfold dec. intros E. apply js_inj in E.
  apply DecimalN.Unsigned.to_uint_inj.
  assert (H : Some (N.to_uint j) = Some (N.to_uint k))
    by (rewrite <- !NilEmpty.usu, E; reflexivity).
  injection H as H. exact H.
Qed.

Lemma numbered_pdf_inj sp meta j k :
  numbered_pdf sp meta j = numbered_pdf sp meta k -> j = k.
Proof.
  unfold numbered_pdf. intros E.
  apply app_inv_head in E. apply app_inv_head in E.
  apply app_inv_tail in E. exact (dec_inj _ _ E).
Qed.

Lemma numbered_other_inj nm j k :
  numbered_other nm j = numbered_other nm k -> j = k.
Proof.
  unfold numbered_other. destruct (0 <? lastIndexOf nm dot)%Z; intros E.
  - apply app_inv_head in E. apply app_inv_head in E.
    apply app_inv_tail in E. exact (dec_inj _ _ E).
  - apply app_inv_head in E. apply app_inv_head in E. exact (dec_inj _ _ E).
Qed.

(** ** The last dot *)

Lemma lastIndexOf_from_absent i found (s : jsstring) c :
  c ∉ s -> lastIndexOf_from i found s c = found.
Proof.
  revert i found. induction s as [|x s IH]; intros i found H; [reflexivity|].
  simpl. apply not_elem_of_cons in H as [Hx Hs].
  destruct (N.eqb_spec x c) as [->|_]; [contradiction|].
  apply IH, Hs.
Qed.

Lemma lastIndexOf_from_last i found (a b : jsstring) c :
  c ∉ b ->
  lastIndexOf_from i found (a ++ c :: b) c = (i + Z.of_nat (length a))%Z.
Proof.
  intros Hb. revert i found.
  induction a as [|x a IH]; intros i found; simpl.
  - rewrite N.eqb_refl, lastIndexOf_from_absent by assumption. lia.
  - rewrite IH. lia.
Qed.

Lemma last_dot_split (s : jsstring) c :
  c ∉ s \/ exists a b, s = a ++ c :: b /\ c ∉ b.
Proof.
  induction s as [|x s [IH|(a & b & -> & Hb)]].
  - left. apply not_elem_of_nil.
  - destruct (N.eq_dec x c) as [->|Hx].
    + right. exists [], s. split; [reflexivity | exact IH].
    + left. apply not_elem_of_cons. split; [congruence | exact IH].
  - right. exists (x :: a), b. split; [reflexivity | exact Hb].
Qed.

Lemma numbered_other_ext (base ext : jsstring) k :
  base <> [] -> dot ∉ ext ->
  numbered_other (base ++ dot :: ext) k
  = base ++ js "-" ++ dec k ++ dot :: ext.
Proof.
  intros Hbase Hext. unfold numbered_other, lastIndexOf.
  rewrite lastIndexOf_from_last by assumption.
  assert (0 < length base) by (destruct base; [contradiction | simpl; lia]).
  destruct (Z.ltb_spec 0 (0 + Z.of_nat (length base))) as [_|]; [|lia].
  unfold substring, substring_from, clamp.
  rewrite Z.add_0_l, Nat2Z.id. change (Z.to_nat 0) with 0.
  rewrite length_app. simpl length.
  replace (Nat.min 0 (length base + S (length ext))) with 0 by lia.
  replace (Nat.min (length base) (length base + S (length ext)))
    with (length base) by lia.
  replace (Nat.min 0 (length base)) with 0 by lia.
  replace (Nat.max 0 (length base)) with (length base) by lia.
  rewrite Nat.sub_0_r. change (drop 0 (base ++ dot :: ext)) with (base ++ dot :: ext).
  rewrite take_app_length, drop_app_length. reflexivity.
Qed.

Lemma numbered_other_plain (nm : jsstring) k :
  (lastIndexOf nm dot <= 0)%Z -> numbered_other nm k = nm ++ js "-" ++ dec k.
Proof.
  intros H. unfold numbered_other.
  destruct (Z.ltb_spec 0 (lastIndexOf nm dot)); [lia | reflexivity].
Qed.

(** ** The collision loop *)

Section Loop.

Variable used : gset jsstring.
Variable numbered : N -> jsstring.
Hypothesis numbered_inj : forall j k, numbered j = numbered k -> j = k.

Lemma least_free (c : N) (m : nat) :
  (exists n, n <= m
     /\ (numbered (c + N.of_nat n) ∉ used)
     /\ forall j, j < n -> numbered (c + N.of_nat j) ∈ used)
  \/ (forall j, j <= m -> numbered (c + N.of_nat j) ∈ used).
Proof.
  induction m as [|m [(n & Hn & Hfree & Hbelow)|Hall]].
  - destruct (decide (numbered (c + N.of_nat 0) ∈ used)) as [Hin|Hout].
    + right. intros j Hj. replace j with 0 by lia. exact Hin.
    + left. exists 0. repeat split; [lia | exact Hout | intros j Hj; lia].
  - left. exists n. repeat split; [lia | exact Hfree | exact Hbelow].
  - destruct (decide (numbered (c + N.of_nat (S m)) ∈ used)) as [Hin|Hout].
    + right. intros j Hj. destruct (decide (j = S m)) as [->|Hne];
        [exact Hin | apply Hall; lia].
    + left. exists (S m). repeat split; [lia | exact Hout |].
      intros j Hj. apply Hall. lia.
Qed.

(** Pigeonhole: the names of [base.size used + 1] consecutive counters cannot
    all be taken. *)
Lemma some_counter_free (c : N) :
  ~ (forall j, j <= base.size used -> numbered (c + N.of_nat j) ∈ used).
Proof.
  intros Hall.
  set (l := (fun j => numbered (c + N.of_nat j)) <$> seq 0 (S (base.size used))).
  assert (Hnd : NoDup l).
  { apply NoDup_fmap_2; [|apply NoDup_seq].
    intros i j E. apply numbered_inj in E. lia. }
  assert (Hsub : list_to_set l ⊆ used).
  { intros x Hx. apply elem_of_list_to_set in Hx.
    apply list_elem_of_fmap in Hx as (j & -> & Hj).
    apply elem_of_seq in Hj. apply Hall. lia. }
  apply subseteq_size in Hsub.
  rewrite size_list_to_set in Hsub by exact Hnd.
  unfold l in Hsub. rewrite length_fmap, length_seq in Hsub. lia.
Qed.

Lemma while_used_numbered fuel (c : N) (n : nat) :
  (forall j, j < n -> numbered (c + N.of_nat j) ∈ used) ->
  numbered (c + N.of_nat n) ∉ used ->
  n < fuel ->
  while_used fuel used numbered (numbered c) (c + 1)%N
  = Ok (numbered (c + N.of_nat n)).
Proof.
  revert fuel c. induction n as [|n IH]; intros fuel c Hbelow Hfree Hfuel;
    (destruct fuel as [|fuel]; [lia|]); cbn [while_used].
  - replace (c + N.of_nat 0)%N with c in * by lia.
    destruct (decide (numbered c ∈ used)); [contradiction | reflexivity].
  - pose proof (Hbelow 0 ltac:(lia)) as H0.
    replace (c + N.of_nat 0)%N with c in H0 by lia.
    destruct (decide (numbered c ∈ used)); [|contradiction].
    replace (c + N.of_nat (S n))%N with (c + 1 + N.of_nat n)%N in * by lia.
    apply IH; [|exact Hfree|lia].
    intros j Hj. replace (c + 1 + N.of_nat j)%N
      with (c + N.of_nat (S j))%N by lia.
    apply Hbelow. lia.
Qed.

(** With enough fuel the loop ends, and with the name the policy words. *)
Lemma while_used_chosen fuel (candidate : jsstring) :
  base.size used + 1 < fuel ->
  exists r, while_used fuel used numbered candidate 2%N = Ok r
            /\ Spec.chosen used candidate numbered r.
Proof.
  intros Hfuel. destruct fuel as [|fuel]; [lia|]. simpl.
  destruct (decide (candidate ∈ used)) as [Hin|Hout].
  - destruct (least_free 2%N (base.size used))
      as [(n & Hn & Hfree & Hbelow)|Hall];
      [|destruct (some_counter_free 2%N Hall)].
    exists (numbered (2 + N.of_nat n)%N). split.
    + change 3%N with (2 + 1)%N. apply while_used_numbered; auto. lia.
    + split; [exact Hfree|]. right. split; [exact Hin|].
      exists (2 + N.of_nat n)%N. repeat split; [lia|].
      intros j Hj.
      replace j with (2 + N.of_nat (N.to_nat (j - 2)))%N by lia.
      apply Hbelow. lia.
  - exists candidate. split; [reflexivity|].
    split; [exact Hout|]. left. split; [exact Hout | reflexivity].
Qed.

End Loop.

(** ** The two loops of the export *)

Lemma for_of_app {A S : Type} (body : S -> A -> res S) (a b : list A) (s : S) :
  for_of body (a ++ b) s = bind (for_of body a s) (for_of body b).
Proof.
  revert s. induction a as [|x a IH]; intros s; simpl; [reflexivity|].
  destruct (body s x); simpl; auto.
Qed.

Lemma for_of_ext {A S : Type} (f g : S -> A -> res S) (items : list A) (s : S) :
  Forall (fun x => forall t, f t x = g t x) items ->
  for_of f items s = for_of g items s.
Proof.
  intros H. revert s. induction H as [|x items Hx _ IH]; intros s; simpl;
    [reflexivity|].
  rewrite Hx. destruct (g s x); simpl; auto.
Qed.

Lemma filter_Forall {A : Type} (f : A -> bool) (l : list A) :
  Forall (fun x => f x = true) (List.filter f l).
Proof.
  induction l as [|x l IH]; simpl; [constructor|].
  destruct (f x) eqn:E; [constructor|]; assumption.
Qed.

Lemma filter_split_length {A : Type} (f : A -> bool) (l : list A) :
  length (List.filter (fun x => negb (f x)) l) + length (List.filter f l)
  = length l.
Proof.
  induction l as [|x l IH]; simpl; [reflexivity|].
  destruct (f x); simpl; lia.
Qed.

Lemma consistent_empty : consistent emptyZip.
Proof. split; [reflexivity | constructor]. Qed.

Lemma consistent_size z :
  consistent z -> base.size (usedNames z) = length (zipContents z).
Proof.
  intros [-> Hnd]. rewrite size_list_to_set by exact Hnd.
  apply length_map.
Qed.

Lemma consistent_put n b z :
  consistent z -> n ∉ usedNames z -> consistent (put n b z).
Proof.
  intros [Hused Hnd] Hn. unfold consistent, put. simpl.
  rewrite map_app. simpl. split.
  - rewrite list_to_set_app_L, Hused. simpl.
    rewrite (right_id_L ∅ (∪)). apply (comm_L (∪)).
  - apply NoDup_app. repeat split; [exact Hnd| |apply NoDup_singleton].
    intros x Hx Hx'. apply list_elem_of_singleton in Hx'. subst x.
    apply Hn. rewrite Hused. apply elem_of_list_to_set. exact Hx.
Qed.

Section Items.

Variable fuel : nat.
Variable md : gmap jsstring PdfMetadata.
Variable prefix : jsstring.

Lemma add_item_ok z item :
  consistent z -> length (zipContents z) + 1 < fuel -> recorded_if_pdf md item ->
  exists n, add_item fuel md (sanitizeSegment prefix) z item
            = Ok (put n (bytes (file item)) z)
            /\ Spec.chosen_for md prefix (usedNames z) item n.
Proof.
  intros Hz Hfuel Hok. rewrite <- (consistent_size z Hz) in Hfuel.
  unfold add_item, Spec.chosen_for, recorded_if_pdf in *.
  destruct (isPdf item).
  - destruct (Hok eq_refl) as [meta Hmeta]. unfold add_pdf. rewrite Hmeta.
    destruct (while_used_chosen (usedNames z)
                (numbered_pdf (sanitizeSegment prefix) meta)
                (numbered_pdf_inj _ _) fuel
                (pdf_stem (sanitizeSegment prefix) meta ++ js ".pdf") Hfuel)
      as (r & -> & Hr).
    exists r. split; [reflexivity|]. exists meta. split; [reflexivity|].
    exact Hr.
  - unfold add_other.
    destruct (while_used_chosen (usedNames z)
                (numbered_other (name (file item)))
                (numbered_other_inj _) fuel (name (file item)) Hfuel)
      as (r & -> & Hr).
    exists r. split; [reflexivity | exact Hr].
Qed.

Lemma for_of_add_item_ok items z :
  consistent z -> length (zipContents z) + length items < fuel ->
  Forall (recorded_if_pdf md) items ->
  exists z' es,
    for_of (add_item fuel md (sanitizeSegment prefix)) items z = Ok z'
    /\ zipContents z' = zipContents z ++ es
    /\ consistent z'
    /\ Spec.follows md prefix (usedNames z) items es.
Proof.
  intros Hz Hfuel Hall. revert z Hz Hfuel.
  induction Hall as [|item items Hitem _ IH]; intros z Hz Hfuel.
  - exists z, []. simpl. rewrite app_nil_r. auto.
  - simpl in Hfuel.
    destruct (add_item_ok z item Hz ltac:(lia) Hitem) as (n & Hn & Hch).
    assert (Hfree : n ∉ usedNames z).
    { unfold Spec.chosen_for in Hch.
      destruct (isPdf item); [destruct Hch as (? & _ & Hch)|];
        exact (proj1 Hch). }
    destruct (IH (put n (bytes (file item)) z)) as (z' & es & Hrun & Hzc & Hz' & Hf).
    + apply consistent_put; assumption.
    + simpl. rewrite length_app. simpl. lia.
    + exists z', ((n, bytes (file item)) :: es).
      cbn [for_of]. rewrite Hn. cbn [bind].
      split; [exact Hrun|]. split.
      { rewrite Hzc. simpl. rewrite <- app_assoc. reflexivity. }
      split; [exact Hz'|]. cbn [Spec.follows].
      split; [reflexivity|]. split; [exact Hch | exact Hf].
Qed.

Lemma for_of_add_item_throw items z :
  consistent z -> length (zipContents z) + length items < fuel ->
  ~ Forall (recorded_if_pdf md) items ->
  for_of (add_item fuel md (sanitizeSegment prefix)) items z = Throw.
Proof.
  revert z. induction items as [|item items IH]; intros z Hz Hfuel Hnot.
  - destruct Hnot. constructor.
  - simpl in Hfuel. cbn [for_of].
    destruct (isPdf item) eqn:Hpdf.
    + destruct (md !! key item) as [meta|] eqn:Hmeta.
      * assert (Hitem : recorded_if_pdf md item)
          by (intros _; exists meta; exact Hmeta).
        destruct (add_item_ok z item Hz ltac:(lia) Hitem) as (n & -> & Hch).
        cbn [bind]. unfold Spec.chosen_for in Hch. rewrite Hpdf in Hch.
        destruct Hch as (? & _ & Hfree & _).
        apply IH.
        -- apply consistent_put; assumption.
        -- simpl. rewrite length_app. simpl. lia.
        -- intros H. apply Hnot. constructor; assumption.
      * unfold add_item, add_pdf. rewrite Hpdf, Hmeta. reflexivity.
    + assert (Hitem : recorded_if_pdf md item) by (intros E; congruence).
      destruct (add_item_ok z item Hz ltac:(lia) Hitem) as (n & -> & Hch).
      cbn [bind]. unfold Spec.chosen_for in Hch. rewrite Hpdf in Hch.
      destruct Hch as (Hfree & _).
      apply IH.
      * apply consistent_put; assumption.
      * simpl. rewrite length_app. simpl. lia.
      * intros H. apply Hnot. constructor; assumption.
Qed.

End Items.

Lemma build_zip_items fuel st sp :
  build_zip fuel st sp
  = for_of (add_item fuel (metadata st) sp) (otherFiles st ++ pdfFiles st)
      emptyZip.
Proof.
  unfold build_zip. rewrite for_of_app.
  rewrite (for_of_ext (add_item fuel (metadata st) sp) (add_other fuel)).
  - destruct (for_of (add_other fuel) (otherFiles st) emptyZip); simpl;
      try reflexivity.
    apply for_of_ext.
    eapply Forall_impl; [apply filter_Forall|].
    intros x Hx t. unfold add_item. simpl in Hx. rewrite Hx. reflexivity.
  - eapply Forall_impl; [apply filter_Forall|].
    intros x Hx t. unfold add_item. simpl in Hx.
    destruct (isPdf x); [discriminate | reflexivity].
Qed.

Lemma records_of_items st :
  Forall (has_record (metadata st)) (pdfFiles st)
  <-> Forall (recorded_if_pdf (metadata st)) (otherFiles st ++ pdfFiles st).
Proof.
  rewrite Forall_app. split.
  - intros H. split.
    + eapply Forall_impl; [apply filter_Forall|].
      intros x Hx E. simpl in Hx. rewrite E in Hx. discriminate.
    + eapply Forall_impl; [exact H|]. intros x Hx _. exact Hx.
  - intros [_ H]. unfold pdfFiles in *.
    pose proof (filter_Forall (fun f => isPdf f) (files st)) as Hp.
    induction Hp as [|x l Hx _ IH]; [constructor|].
    inversion H; subst. constructor; auto.
Qed.

Lemma items_length st :
  length (otherFiles st ++ pdfFiles st) = length (files st).
Proof. rewrite length_app. apply filter_split_length. Qed.

(** ** What following the policy entails *)

Section Follows.

Variable md : gmap jsstring PdfMetadata.
Variable prefix : jsstring.



Lemma follows_bytes used items es :
  Spec.follows md prefix used items es ->
  List.map snd es = List.map (fun item => bytes (file item)) items.
Proof.
  revert used es. induction items as [|item items IH]; intros used [|[n b] es];
    simpl; try contradiction; [reflexivity|].
  intros (-> & _ & Hf). f_equal. exact (IH _ _ Hf).
Qed.

Lemma follows_lookup used items es i item :
  Spec.follows md prefix used items es ->
  items !! i = Some item ->
  exists n, List.map fst es !! i = Some n
    /\ es !! i = Some (n, bytes (file item))
    /\ Spec.chosen_for md prefix
         (list_to_set (take i (List.map fst es)) ∪ used) item n.
Proof.
  revert used es i. induction items as [|x items IH];
    intros used [|[n b] es] i; simpl; try contradiction;
    try (intros _ H; discriminate).
  intros (-> & Hch & Hf) Hi. destruct i as [|i]; simpl in Hi.
  - injection Hi as ->. exists n. repeat split.
    simpl. rewrite (left_id_L ∅ (∪)). exact Hch.
  - destruct (IH _ _ _ Hf Hi) as (m & Hm & He & Hc).
    exists m. repeat split; [exact Hm | exact He |].
    simpl.
    replace ({[n]} ∪ list_to_set (take i (List.map fst es)) ∪ used)
      with (list_to_set (take i (List.map fst es)) ∪ ({[n]} ∪ used)).
    + exact Hc.
    + rewrite (assoc_L (∪)). f_equal. apply (comm_L (∪)).
Qed.

End Follows.

(** ** The three ways [handleConfirmExport] ends *)

Lemma truthy_validate s : truthy (sanitizeSegment s) = validateSegment s.
Proof. unfold validateSegment. destruct (sanitizeSegment s); reflexivity. Qed.

Lemma export_prefix_invalid cause fuel st :
  validateSegment (prefixValue st) = false ->
  handleConfirmExport cause fuel st
  = Some (set_error (js "Prefix is invalid (empty after sanitization)") st,
          None).
Proof.
  intros H. unfold handleConfirmExport. rewrite truthy_validate, H.
  reflexivity.
Qed.

Lemma export_ok cause fuel st :
  length (files st) < fuel ->
  validateSegment (prefixValue st) = true ->
  Forall (has_record (metadata st)) (pdfFiles st) ->
  exists a,
    handleConfirmExport cause fuel st = Some (exported st, Some a)
    /\ download a = sanitizeSegment (prefixValue st) ++ js "-export.zip"
    /\ Spec.follows (metadata st) (prefixValue st) ∅
         (otherFiles st ++ pdfFiles st) (entries a).
Proof.
  intros Hfuel Hvalid Hrec. unfold handleConfirmExport.
  rewrite truthy_validate, Hvalid. cbn [negb]. rewrite build_zip_items.
  apply records_of_items in Hrec.
  destruct (for_of_add_item_ok fuel (metadata st) (prefixValue st)
              (otherFiles st ++ pdfFiles st) emptyZip consistent_empty)
    as (z & es & -> & Hzc & _ & Hf); [|exact Hrec|].
  - rewrite items_length. simpl. exact Hfuel.
  - simpl in Hzc. eexists. split; [reflexivity|]. split; [reflexivity|].
    simpl. rewrite Hzc. exact Hf.
Qed.

Lemma export_throw cause fuel st :
  length (files st) < fuel ->
  validateSegment (prefixValue st) = true ->
  ~ Forall (has_record (metadata st)) (pdfFiles st) ->
  handleConfirmExport cause fuel st
  = Some (set_error (js "Export failed: " ++ cause) st, None).
Proof.
  intros Hfuel Hvalid Hrec. unfold handleConfirmExport.
  rewrite truthy_validate, Hvalid. cbn [negb]. rewrite build_zip_items.
  rewrite (for_of_add_item_throw fuel (metadata st) (prefixValue st)).
  - reflexivity.
  - exact consistent_empty.
  - rewrite items_length. simpl. exact Hfuel.
  - intros H. apply Hrec, records_of_items, H.
Qed.

(** ** Reading the policy *)

Lemma chosen_candidate_free used candidate numbered r :
  Spec.chosen used candidate numbered r -> candidate ∉ used -> r = candidate.
Proof. intros [_ [[_ ->]|[Hin _]]] Hout; [reflexivity | contradiction]. Qed.


Lemma other_item st i item :
  otherFiles st !! i = Some item ->
  (otherFiles st ++ pdfFiles st) !! i = Some item /\ isPdf item = false.
Proof.
  intros H. split; [apply lookup_app_l_Some, H|].
  pose proof (Forall_lookup_1 _ _ _ _
                (filter_Forall (fun f => negb (isPdf f)) (files st)) H) as E.
  simpl in E. destruct (isPdf item); [discriminate | reflexivity].
Qed.



(** The name of the [i]-th passthrough item. *)
Lemma follows_other st a i item :
  Spec.follows (metadata st) (prefixValue st) ∅
    (otherFiles st ++ pdfFiles st) (entries a) ->
  otherFiles st !! i = Some item ->
  exists n,
    names a !! i = Some n
    /\ Spec.chosen (list_to_set (take i (names a)))
         (name (file item)) (numbered_other (name (file item))) n.
Proof.
  intros Hf Hi. destruct (other_item st i item Hi) as [Hitem Hpdf].
  destruct (follows_lookup _ _ _ _ _ _ _ Hf Hitem) as (n & Hn & _ & Hch).
  unfold Spec.chosen_for in Hch. rewrite Hpdf in Hch.
  rewrite (right_id_L ∅ (∪)) in Hch.
  exists n. auto.
Qed.


(** ** The filename builder *)




(** C10: a passthrough name without a dot, or whose only dot comes first,
    gets its counter at the very end; the counter goes before an extension
    exactly when the last dot stands at an index greater than zero. *)
Theorem dotless_names_numbered_at_end :
  (forall (nm : jsstring) k,
     dot ∉ nm -> numbered_other nm k = nm ++ js "-" ++ dec k)
  /\ (forall (rest : jsstring) k,
        dot ∉ rest ->
        numbered_other (dot :: rest) k = (dot :: rest) ++ js "-" ++ dec k)
  /\ (forall (nm : jsstring) k,
        (lastIndexOf nm dot <= 0)%Z ->
        numbered_other nm k = nm ++ js "-" ++ dec k)
  /\ (forall nm : jsstring,
        (0 < lastIndexOf nm dot)%Z
        <-> exists base ext, base <> [] /\ (dot ∉ ext)
                             /\ nm = base ++ dot :: ext)
  /\ (forall (base ext : jsstring) k, base <> [] -> dot ∉ ext ->
        numbered_other (base ++ dot :: ext) k
        = base ++ js "-" ++ dec k ++ dot :: ext)
  /\ numbered_other (js "README") 2 = js "README-2"
  /\ numbered_other (js ".gitignore") 2 = js ".gitignore-2"
  /\ handleConfirmExport [] 5 Sample.dotless
     = Some (exported Sample.dotless,
             Some {| entries := [(js "README", [5%N]);
                                 (js ".gitignore", [7%N]);
                                 (js "README-2", [6%N; 6%N]);
                                 (js ".gitignore-2", [8%N; 8%N])];
                     download := js "p-export.zip" |}).
Proof.
  assert (Habsent : forall nm : jsstring, dot ∉ nm -> lastIndexOf nm dot = (-1)%Z).
  { intros nm H. apply lastIndexOf_from_absent, H. }
  assert (Hfirst : forall rest : jsstring,
             dot ∉ rest -> lastIndexOf (dot :: rest) dot = 0%Z).
  { intros rest H. apply (lastIndexOf_from_last 0 (-1) [] rest dot H). }
  refine (conj _ (conj _ (conj _ (conj _ (conj _ (conj _ (conj _ _))))))).
  - intros nm k H. apply numbered_other_plain. rewrite Habsent by exact H. lia.
  - intros rest k H. apply numbered_other_plain. rewrite Hfirst by exact H. lia.
  - intros nm k H. apply numbered_other_plain, H.
  - intros nm. split.
    + intros H. destruct (last_dot_split nm dot) as [Hno|(a & b & -> & Hb)].
      * rewrite Habsent in H by exact Hno. lia.
      * exists a, b. split; [|split; [exact Hb | reflexivity]].
        intros ->. simpl in H. rewrite Hfirst in H by exact Hb. lia.
    + intros (base & ext & Hbase & Hext & ->). unfold lastIndexOf.
      rewrite lastIndexOf_from_last by exact Hext.
      destruct base; [contradiction | simpl; lia].
  - exact numbered_other_ext.
  - vm_compute. reflexivity.
  - vm_compute. reflexivity.
  - vm_compute. reflexivity.
Qed.




(** ** When the export fails *)

(** The ways the handler ends, by what it tests: a prefix that sanitizes
    to empty is reported and nothing is assigned; with another prefix, a
    renamable item without a metadata record makes the read throw, which is
    reported; with a record for every renamable item every file is
    assigned a name.  The handler itself never computes a status. *)
Lemma export_fails_on_bad_prefix_or_missing_record cause fuel st :
  (sanitizeSegment (prefixValue st) = [] ->
   handleConfirmExport cause fuel st
   = Some (set_error (js "Prefix is invalid (empty after sanitization)") st,
           None))
  /\ (sanitizeSegment (prefixValue st) <> [] -> length (files st) < fuel ->
      (~ Forall (has_record (metadata st)) (pdfFiles st) ->
       handleConfirmExport cause fuel st
       = Some (set_error (js "Export failed: " ++ cause) st, None))
      /\ (Forall (has_record (metadata st)) (pdfFiles st) ->
          exists a,
            handleConfirmExport cause fuel st = Some (exported st, Some a)
            /\ download a
               = sanitizeSegment (prefixValue st) ++ js "-export.zip"
            /\ length (entries a) = length (files st))).
Proof.
  split.
  - intros H. apply export_prefix_invalid.
    unfold validateSegment. rewrite H. reflexivity.
  - intros H Hfuel.
    assert (Hvalid : validateSegment (prefixValue st) = true).
    { unfold validateSegment.
      destruct (sanitizeSegment (prefixValue st)); [contradiction|reflexivity]. }
    split.
    + apply export_throw; assumption.
    + intros Hrec.
      destruct (export_ok cause fuel st Hfuel Hvalid Hrec)
        as (a & Ha & Hd & Hf).
      exists a. split; [exact Ha|]. split; [exact Hd|].
      rewrite <- items_length.
      rewrite <- (length_map snd), (follows_bytes _ _ _ _ _ Hf).
      apply length_map.
Qed.

(** ** The export gate *)

Lemma is_ready_status st b pdf :
  is_ready st b pdf = true <-> status (getPdfStatus st (key pdf) b) = ready.
Proof.
  unfold is_ready.
  destruct (status (getPdfStatus st (key pdf) b)); simpl; split;
    congruence.
Qed.

Lemma find_first {A : Type} (f : A -> bool) (l : list A) :
  match List.find f l with
  | Some x => exists pre post, l = pre ++ x :: post
                /\ Forall (fun y => f y = false) pre /\ f x = true
  | None => Forall (fun y => f y = false) l
  end.
Proof.
  induction l as [|y l IH]; simpl; [constructor|].
  destruct (f y) eqn:Hy.
  - exists [], l. repeat split; [constructor | exact Hy].
  - destruct (List.find f l) as [x|].
    + destruct IH as (pre & post & -> & Hpre & Hx).
      exists (y :: pre), post. repeat split; [constructor; assumption | exact Hx].
    + constructor; assumption.
Qed.

Lemma status_without_prefix_rule st k :
  prefixValue st = [] \/ validateSegment (prefixValue st) = true ->
  getPdfStatus st k true = getPdfStatus st k false.
Proof.
  intros H. unfold getPdfStatus.
  assert (E : truthy (prefixValue st) && negb (validateSegment (prefixValue st))
              = false).
  { destruct H as [->| ->]; [reflexivity | apply andb_false_r]. }
  destruct (metadata st !! k); [|reflexivity].
  cbn [andb]. rewrite E. reflexivity.
Qed.

(** The handler in any state at all, also those in which its button is
    not shown: the dialog opens exactly when every renamable item is ready
    under [includePrefix=true]; otherwise the dialog state is left as it
    is, and the search for the item to select evaluates the status under
    [includePrefix=false].  When the prefix is empty or sanitizes to
    something, the two evaluations agree. *)
Lemma export_gate (st : AppState) :
  (allPdfsReady st = true
   <-> Forall (fun pdf => status (getPdfStatus st (key pdf) true) = ready)
         (pdfFiles st))
  /\ (allPdfsReady st = true ->
      handleExportClick st = (set_prefix_dialog true [] st, None))
  /\ (allPdfsReady st = false ->
      isAskingPrefix (fst (handleExportClick st)) = isAskingPrefix st
      /\ prefixValue (fst (handleExportClick st)) = prefixValue st
      /\ ((exists pre pdf post,
             pdfFiles st = pre ++ pdf :: post
             /\ Forall (fun q => status (getPdfStatus st (key q) false) = ready)
                  pre
             /\ status (getPdfStatus st (key pdf) false) <> ready
             /\ handleExportClick st
                = (set_selection (key pdf) st, Some (key pdf)))
          \/ (Forall (fun q => status (getPdfStatus st (key q) false) = ready)
                (pdfFiles st)
              /\ handleExportClick st = (st, None))))
  /\ (prefixValue st = [] \/ validateSegment (prefixValue st) = true ->
      forall k, getPdfStatus st k true = getPdfStatus st k false).
Proof.
  refine (conj _ (conj _ (conj _ _))).
  - unfold allPdfsReady. rewrite forallb_forall, Forall_forall.
    split; intros H pdf Hin.
    + apply is_ready_status, H, list_elem_of_In, Hin.
    + apply is_ready_status, H, list_elem_of_In, Hin.
  - intros H. unfold handleExportClick. rewrite H. reflexivity.
  - intros H. unfold handleExportClick. rewrite H. cbn [negb].
    pose proof (find_first (fun pdf => negb (is_ready st false pdf))
                  (pdfFiles st)) as Hfind.
    destruct (List.find _ (pdfFiles st)) as [pdf|].
    + destruct Hfind as (pre & post & E & Hpre & Hpdf).
      split; [reflexivity|]. split; [reflexivity|]. left.
      exists pre, pdf, post. split; [exact E|]. split; [|split].
      * eapply Forall_impl; [exact Hpre|]. intros q Hq. simpl in Hq.
        apply is_ready_status. destruct (is_ready st false q);
          [reflexivity | discriminate Hq].
      * intros Hr. apply is_ready_status in Hr. simpl in Hpdf.
        rewrite Hr in Hpdf. discriminate Hpdf.
      * reflexivity.
    + split; [reflexivity|]. split; [reflexivity|]. right.
      split; [|reflexivity].
      eapply Forall_impl; [exact Hfind|]. intros q Hq. simpl in Hq.
      apply is_ready_status. destruct (is_ready st false q);
        [reflexivity | discriminate Hq].
  - intros H k. apply status_without_prefix_rule, H.
Qed.

(** ** The upload limit *)

(** C9, as the code has it: a non-empty batch that would exceed the maximum
    is rejected whole, the file list unchanged and the count-based message
    reported; any other non-empty batch is appended whole and the error
    cleared; an empty or absent batch changes nothing, the error
    included. *)
Theorem upload_limit_atomic (toLowerCase : jsstring -> jsstring)
  (st : AppState) (batch : list File) :
  handleFileSelect toLowerCase st None = st
  /\ (batch = [] -> handleFileSelect toLowerCase st (Some batch) = st)
  /\ (batch <> [] -> MAX_FILES < length (files st) + length batch ->
      handleFileSelect toLowerCase st (Some batch)
      = set_error (limit_message (length batch) (length (files st))) st
      /\ files (handleFileSelect toLowerCase st (Some batch)) = files st)
  /\ (batch <> [] -> length (files st) + length batch <= MAX_FILES ->
      files (handleFileSelect toLowerCase st (Some batch))
      = files st ++ List.map (toFileData toLowerCase) batch
      /\ error (handleFileSelect toLowerCase st (Some batch)) = []
      /\ handleFileSelect toLowerCase st (Some batch)
         = set_files (files st ++ List.map (toFileData toLowerCase) batch)
             (set_error [] st)).
Proof.
  refine (conj _ (conj _ (conj _ _))).
  - reflexivity.
  - intros ->. reflexivity.
  - intros Hne Hover. destruct batch as [|f batch]; [contradiction|].
    unfold handleFileSelect.
    destruct (Nat.ltb_spec MAX_FILES (length (files st) + length (f :: batch)));
      [split; reflexivity | lia].
  - intros Hne Hfits. destruct batch as [|f batch]; [contradiction|].
    unfold handleFileSelect.
    destruct (Nat.ltb_spec MAX_FILES (length (files st) + length (f :: batch)));
      [lia | repeat split].
Qed.

(** An empty selection fits under the limit, yet the error of an earlier
    rejection stays. *)
Lemma empty_batch_keeps_error :
  length (files Sample.after_rejection) + length (@nil File) <= MAX_FILES
  /\ error (handleFileSelect Sample.toLowerCase Sample.after_rejection
              (Some []))
     = js "Cannot add 101 files. Limit is 100 files total. Currently: 0".
Proof. split; [vm_compute; lia | vm_compute; reflexivity]. Qed.

(** * Further properties of the route *)

(** ** What sanitizing keeps and what it removes *)

Lemma solid_not (p : N -> bool) :
  p = is_ws \/ p = is_forbidden \/ p = is_hyphen ->
  forall x, p x = true -> solid x = false.
Proof.
  unfold solid. intros [->|[->| ->]] x H; rewrite H;
    destruct (is_ws x), (is_forbidden x), (is_hyphen x); reflexivity.
Qed.

Section Solid.

Variable p : N -> bool.
Hypothesis p_not_solid : forall x, p x = true -> solid x = false.

Lemma filter_solid_drop_while (s : jsstring) :
  List.filter solid (drop_while p s) = List.filter solid s.
Proof.
  induction s as [|x s IH]; [reflexivity|]. simpl.
  destruct (p x) eqn:Hx; [|reflexivity].
  rewrite (p_not_solid x Hx). exact IH.
Qed.

Lemma filter_solid_strip (s : jsstring) :
  List.filter solid (Spec.strip p s) = List.filter solid s.
Proof.
  unfold Spec.strip.
  rewrite List.filter_rev, filter_solid_drop_while, List.filter_rev,
    rev_involutive.
  apply filter_solid_drop_while.
Qed.

Lemma filter_solid_collapse by_ inrun (s : jsstring) :
  solid by_ = false ->
  List.filter solid (Spec.collapse_runs p by_ inrun s) = List.filter solid s.
Proof.
  intros Hby. revert inrun. induction s as [|x s IH]; intros inrun;
    [reflexivity|].
  simpl. destruct (p x) eqn:Hx.
  - rewrite (p_not_solid x Hx).
    destruct inrun; simpl; rewrite ?Hby; apply IH.
  - simpl. rewrite IH. reflexivity.
Qed.

Lemma filter_solid_replace_each by_ (s : jsstring) :
  solid by_ = false ->
  List.filter solid (Spec.replace_each p by_ s) = List.filter solid s.
Proof.
  intros Hby. induction s as [|x s IH]; [reflexivity|].
  simpl. destruct (p x) eqn:Hx.
  - rewrite Hby, (p_not_solid x Hx). exact IH.
  - rewrite IH. reflexivity.
Qed.

Lemma drop_while_length (s : jsstring) : length (drop_while p s) <= length s.
Proof.
  induction s as [|x s IH]; simpl; [lia|].
  destruct (p x); simpl; lia.
Qed.

Lemma strip_length (s : jsstring) : length (Spec.strip p s) <= length s.
Proof.
  unfold Spec.strip. rewrite length_rev.
  etransitivity; [apply drop_while_length|].
  rewrite length_rev. apply drop_while_length.
Qed.

Lemma collapse_length by_ inrun (s : jsstring) :
  length (Spec.collapse_runs p by_ inrun s) <= length s.
Proof.
  revert inrun. induction s as [|x s IH]; intros inrun; simpl; [lia|].
  pose proof (IH true). pose proof (IH false).
  destruct (p x); [destruct inrun|]; simpl; lia.
Qed.

End Solid.

Lemma sanitize_keeps_solid s :
  List.filter solid (Spec.sanitize s) = List.filter solid s.
Proof.
  pose proof (solid_not is_ws ltac:(auto)) as Hws.
  pose proof (solid_not is_forbidden ltac:(auto)) as Hforb.
  pose proof (solid_not is_hyphen ltac:(auto)) as Hhy.
  unfold Spec.sanitize.
  rewrite (filter_solid_strip is_hyphen Hhy).
  rewrite (filter_solid_collapse is_hyphen Hhy) by reflexivity.
  rewrite (filter_solid_replace_each is_forbidden Hforb) by reflexivity.
  rewrite (filter_solid_collapse is_ws Hws) by reflexivity.
  apply (filter_solid_strip is_ws Hws).
Qed.

Lemma existsb_filter (f : N -> bool) (s : jsstring) :
  existsb f s = negb (Spec.is_empty (List.filter f s)).
Proof.
  induction s as [|x s IH]; [reflexivity|].
  simpl. destruct (f x); [reflexivity | exact IH].
Qed.

(** X1: sanitizing keeps every character that is neither whitespace, nor
    forbidden, nor a hyphen, and keeps them in their order; everything it
    removes or replaces is of those three kinds. *)
Theorem sanitize_keeps_solid_characters (s : jsstring) :
  List.filter solid (sanitizeSegment s) = List.filter solid s.
Proof. rewrite sanitizeSegment_spec. apply sanitize_keeps_solid. Qed.

(** X2: a sanitized segment holds no whitespace and none of the forbidden
    characters, and is never longer than the segment it came from. *)
Theorem sanitize_legal_and_no_longer (s : jsstring) :
  Forall (fun c => legal c = true) (sanitizeSegment s)
  /\ length (sanitizeSegment s) <= length s.
Proof.
  rewrite sanitizeSegment_spec. split.
  - destruct (sanitize_tidy s) as [Hws Hforb _ _ _].
    unfold free_of in *. rewrite Forall_forall in *.
    intros c Hc. unfold legal. rewrite (Hws c Hc), (Hforb c Hc). reflexivity.
  - unfold Spec.sanitize.
    etransitivity; [apply strip_length|].
    etransitivity; [apply collapse_length|].
    unfold Spec.replace_each. rewrite length_map.
    etransitivity; [apply collapse_length|].
    apply strip_length.
Qed.

(** X3: a segment is valid exactly when it holds at least one character
    that is neither whitespace, nor forbidden, nor a hyphen. *)
Theorem validateSegment_iff_solid_character (s : jsstring) :
  validateSegment s = existsb solid s.
Proof.
  rewrite validate_is_empty, existsb_filter, <- sanitize_keeps_solid.
  f_equal. destruct (sanitize_tidy s) as [Hws Hforb _ Hhd _].
  destruct (Spec.sanitize s) as [|x t]; [reflexivity|].
  inversion Hws as [|? ? Hx _]; subst. inversion Hforb as [|? ? Hy _]; subst.
  assert (Hz : is_hyphen x = false).
  { destruct (is_hyphen x) eqn:E; [|reflexivity].
    apply is_hyphen_eq in E. subst x. destruct (Hhd t eq_refl). }
  simpl. unfold solid. rewrite Hx, Hy, Hz. reflexivity.
Qed.

(** X4: the segments sanitizing leaves unchanged are exactly those without
    whitespace, without forbidden characters, without two adjacent hyphens
    and without a hyphen at either end. *)
Theorem sanitize_fixpoints (s : jsstring) :
  sanitizeSegment s = s <-> tidy s.
Proof.
  rewrite sanitizeSegment_spec. split.
  - intros E. rewrite <- E. apply sanitize_tidy.
  - apply sanitize_fixes_tidy.
Qed.

(** ** File keys *)

Lemma uint_digits (d : Decimal.uint) :
  Forall (fun c => is_digit c = true) (js (NilEmpty.string_of_uint d)).
Proof.
  induction d; simpl; constructor; try reflexivity; assumption.
Qed.

Lemma dec_digits n : Forall (fun c => is_digit c = true) (dec n).
Proof. apply uint_digits. Qed.

Lemma dec_no_bar n : bar ∉ dec n.
Proof.
  intros H. pose proof (dec_digits n) as D. rewrite Forall_forall in D.
  specialize (D bar H). discriminate.
Qed.

Lemma dec_int_no_bar z : bar ∉ dec_int z.
Proof.
  unfold dec_int. destruct (Z.to_int z) as [d|d]; simpl; intros H.
  - pose proof (uint_digits d) as D. rewrite Forall_forall in D.
    specialize (D bar H). discriminate.
  - apply elem_of_cons in H as [H|H]; [discriminate|].
    pose proof (uint_digits d) as D. rewrite Forall_forall in D.
    specialize (D bar H). discriminate.
Qed.

Lemma dec_int_inj j k : dec_int j = dec_int k -> j = k.
Proof.
  unfold dec_int. intros E. apply js_inj in E.
  apply DecimalZ.to_int_inj.
  assert (H : Some (Z.to_int j) = Some (Z.to_int k))
    by (rewrite <- !NilEmpty.isi, E; reflexivity).
  injection H as H. exact H.
Qed.

Lemma split_at_last (c : N) (a a' x x' : jsstring) :
  c ∉ x -> c ∉ x' -> a ++ c :: x = a' ++ c :: x' -> a = a' /\ x = x'.
Proof.
  intros Hx Hx'. revert a'.
  induction a as [|y a IH]; intros [|y' a'] E; simpl in E.
  - injection E as E. auto.
  - injection E as <- E. destruct Hx. rewrite E. apply elem_of_app.
    right. apply elem_of_cons. left. reflexivity.
  - injection E as -> E. destruct Hx'. rewrite <- E. apply elem_of_app.
    right. apply elem_of_cons. left. reflexivity.
  - injection E as -> E. destruct (IH _ E) as [-> ->]. auto.
Qed.

(** X5: the key of a file determines its name, size and modification time,
    and nothing else: two files have the same key exactly when they agree
    on the three, whatever their contents and type.  Every key holds a
    vertical bar. *)
Theorem getFileKey_injective (f g : File) :
  (getFileKey f = getFileKey g
   <-> name f = name g /\ size f = size g
       /\ lastModified f = lastModified g)
  /\ bar ∈ getFileKey f.
Proof.
  unfold getFileKey. split; [split|].
  - intros E.
    change (js "|") with [bar] in E.
    rewrite !(app_assoc (name _)) in E. simpl in E.
    rewrite <- !app_assoc in E.
    change (name f ++ [bar] ++ dec (size f) ++ bar :: dec_int (lastModified f))
      with (name f ++ [bar] ++ dec (size f) ++ [bar] ++ dec_int (lastModified f))
      in E.
    change (name g ++ [bar] ++ dec (size g) ++ bar :: dec_int (lastModified g))
      with (name g ++ [bar] ++ dec (size g) ++ [bar] ++ dec_int (lastModified g))
      in E.
    rewrite !(app_assoc (name _)), !(app_assoc _ (dec _)) in E.
    apply split_at_last in E as [E El]; try apply dec_int_no_bar.
    rewrite <- !app_assoc in E.
    apply split_at_last in E as [En Es]; try apply dec_no_bar.
    repeat split; [exact En | exact (dec_inj _ _ Es) | exact (dec_int_inj _ _ El)].
  - intros (-> & -> & ->). reflexivity.
  - apply elem_of_app. right. apply elem_of_cons. left. reflexivity.
Qed.

(** ** Removing a file *)

Lemma filter_sublist {A : Type} (f : A -> bool) (l : list A) :
  sublist (List.filter f l) l.
Proof.
  induction l as [|x l IH]; simpl; [constructor|].
  destruct (f x); [apply sublist_skip | apply sublist_cons]; exact IH.
Qed.

Lemma filter_filter_same {A : Type} (f : A -> bool) (l : list A) :
  List.filter f (List.filter f l) = List.filter f l.
Proof.
  induction l as [|x l IH]; simpl; [reflexivity|].
  destruct (f x) eqn:E; simpl; rewrite ?E, IH; reflexivity.
Qed.

Lemma filter_all {A : Type} (f : A -> bool) (l : list A) :
  Forall (fun x => f x = true) l -> List.filter f l = l.
Proof.
  induction 1 as [|x l Hx _ IH]; simpl; [reflexivity|].
  rewrite Hx, IH. reflexivity.
Qed.

Lemma listed_false k (l : list FileData) :
  listed k l = false -> Forall (fun f => negb (bool_decide (key f = k)) = true) l.
Proof.
  induction l as [|x l IH]; simpl; [constructor|].
  intros H. apply orb_false_iff in H as [Hx Hl].
  constructor; [rewrite Hx; reflexivity | exact (IH Hl)].
Qed.

Lemma listed_true k (l : list FileData) :
  listed k l = true <-> exists f, f ∈ l /\ key f = k.
Proof.
  unfold listed. rewrite existsb_exists. split; intros (f & Hf & Hk);
    exists f; (split; [apply list_elem_of_In, Hf|]).
  - apply bool_decide_eq_true in Hk. exact Hk.
  - apply bool_decide_eq_true. exact Hk.
Qed.

Lemma filter_other_keys k (l : list FileData) :
  List.filter (fun f => negb (bool_decide (key f = k))) l
  = filter (fun f => key f <> k) l.
Proof.
  induction l as [|x l IH]; [reflexivity|].
  cbn [List.filter]. rewrite filter_cons, IH.
  destruct (bool_decide_reflect (key x = k)) as [E|E]; cbn [negb];
    destruct (decide (key x <> k)); try reflexivity; contradiction.
Qed.

(** X6: removing by key leaves exactly the entries of the other keys, each
    as often as it was listed and in the order listed (so every entry of
    that key is gone, passthrough or PDF, and duplicates of other entries
    stay); it removes the record of the key and no other; a selection of
    that key becomes no selection, any other selection stays; page, dialog,
    prefix and error stay.  Removing twice is removing once, and removing a
    key that is neither listed, recorded nor selected changes nothing. *)
Theorem handleRemoveFile_removes_exactly_key (st : AppState) (k : jsstring) :
  files (handleRemoveFile st k) = filter (fun f => key f <> k) (files st)
  /\ (forall f, f ∈ files (handleRemoveFile st k) <-> f ∈ files st /\ key f <> k)
  /\ sublist (files (handleRemoveFile st k)) (files st)
  /\ (forall before, before `prefix_of` files st ->
        filter (fun f => key f <> k) before
          `prefix_of` files (handleRemoveFile st k))
  /\ metadata (handleRemoveFile st k) = delete k (metadata st)
  /\ metadata (handleRemoveFile st k) !! k = None
  /\ (forall k', k' <> k ->
        metadata (handleRemoveFile st k) !! k' = metadata st !! k')
  /\ (selectedPdfKey st = Some k ->
        selectedPdfKey (handleRemoveFile st k) = None)
  /\ (selectedPdfKey st <> Some k ->
        selectedPdfKey (handleRemoveFile st k) = selectedPdfKey st)
  /\ pageNumber (handleRemoveFile st k) = pageNumber st
  /\ isAskingPrefix (handleRemoveFile st k) = isAskingPrefix st
  /\ prefixValue (handleRemoveFile st k) = prefixValue st
  /\ error (handleRemoveFile st k) = error st
  /\ handleRemoveFile (handleRemoveFile st k) k = handleRemoveFile st k
  /\ (listed k (files st) = false -> metadata st !! k = None ->
      selectedPdfKey st <> Some k -> handleRemoveFile st k = st).
Proof.
  refine (conj _ (conj _ (conj _ (conj _ (conj _ (conj _ (conj _ (conj _
            (conj _ (conj _ (conj _ (conj _ (conj _ (conj _ _)))))))))))))).
  - apply filter_other_keys.
  - intros f. simpl. rewrite !list_elem_of_In, filter_In.
    rewrite negb_true_iff, bool_decide_eq_false. reflexivity.
  - apply filter_sublist.
  - intros before [rest E]. cbn [files handleRemoveFile].
    rewrite filter_other_keys, E, filter_app. eexists. reflexivity.
  - reflexivity.
  - apply lookup_delete_eq.
  - intros k' Hk. apply lookup_delete_ne. congruence.
  - intros H. simpl.
    destruct (bool_decide_reflect (selectedPdfKey st = Some k));
      [reflexivity | contradiction].
  - intros H. simpl.
    destruct (bool_decide_reflect (selectedPdfKey st = Some k));
      [contradiction | reflexivity].
  - reflexivity.
  - reflexivity.
  - reflexivity.
  - reflexivity.
  - unfold handleRemoveFile. simpl.
    rewrite filter_filter_same, delete_delete_eq. f_equal.
    destruct (bool_decide_reflect (selectedPdfKey st = Some k)) as [E|E];
      [reflexivity|].
    destruct (bool_decide_reflect (selectedPdfKey st = Some k));
      [contradiction | reflexivity].
  - intros Hl Hm Hs. unfold handleRemoveFile.
    rewrite (filter_all _ _ (listed_false _ _ Hl)), (delete_id _ _ Hm).
    destruct (bool_decide_reflect (selectedPdfKey st = Some k));
      [contradiction|].
    destruct st; reflexivity.
Qed.

(** ** The metadata effect *)

Lemma init_fold (l : list FileData) (m : gmap jsstring PdfMetadata) (b : bool) :
  (forall k,
     fst (fold_left init_one l (m, b)) !! k
     = match m !! k with
       | Some x => Some x
       | None => if listed k l then Some emptyMetadata else None
       end)
  /\ (snd (fold_left init_one l (m, b)) = false ->
      fst (fold_left init_one l (m, b)) = m)
  /\ (b = true -> snd (fold_left init_one l (m, b)) = true).
Proof.
  revert m b. induction l as [|pdf l IH]; intros m b.
  - simpl. repeat split; auto. intros k. destruct (m !! k); reflexivity.
  - cbn [fold_left].
    assert (E : init_one (m, b) pdf
                = match m !! key pdf with
                  | None => (<[key pdf := emptyMetadata]> m, true)
                  | Some _ => (m, b)
                  end) by reflexivity.
    rewrite E. clear E.
    destruct (m !! key pdf) as [x|] eqn:Hpdf.
    + destruct (IH m b) as (Hlook & Hsame & Hflag).
      refine (conj _ (conj Hsame Hflag)).
      intros k. rewrite Hlook. destruct (m !! k) eqn:Hk; [reflexivity|].
      change (listed k (pdf :: l))
        with (bool_decide (key pdf = k) || listed k l).
      rewrite bool_decide_eq_false_2 by congruence. reflexivity.
    + destruct (IH (<[key pdf := emptyMetadata]> m) true)
        as (Hlook & Hsame & Hflag).
      refine (conj _ (conj _ _)).
      * intros k. rewrite Hlook, lookup_insert.
        change (listed k (pdf :: l))
          with (bool_decide (key pdf = k) || listed k l).
        destruct (decide (key pdf = k)) as [E|Hne].
        -- subst k. rewrite Hpdf, bool_decide_eq_true_2 by reflexivity.
           reflexivity.
        -- rewrite bool_decide_eq_false_2 by exact Hne. reflexivity.
      * intros H. rewrite (Hflag eq_refl) in H. discriminate.
      * intros _. exact (Hflag eq_refl).
Qed.

Lemma initMetadata_lookup st k :
  metadata (initMetadata st) !! k
  = match metadata st !! k with
    | Some x => Some x
    | None => if listed k (pdfFiles st) then Some emptyMetadata else None
    end.
Proof.
  unfold initMetadata.
  destruct (init_fold (pdfFiles st) (metadata st) false) as (Hlook & Hsame & _).
  destruct (snd (fold_left init_one (pdfFiles st) (metadata st, false)));
    simpl.
  - apply Hlook.
  - rewrite <- (Hsame eq_refl) at 1. apply Hlook.
Qed.

Lemma initMetadata_fields st :
  files (initMetadata st) = files st
  /\ selectedPdfKey (initMetadata st) = selectedPdfKey st
  /\ isAskingPrefix (initMetadata st) = isAskingPrefix st
  /\ prefixValue (initMetadata st) = prefixValue st.
Proof.
  unfold initMetadata.
  destruct (snd (fold_left init_one (pdfFiles st) (metadata st, false)));
    repeat split.
Qed.

Lemma initMetadata_complete st :
  Forall (has_record (metadata st)) (pdfFiles st) -> initMetadata st = st.
Proof.
  intros H.
  assert (E : metadata (initMetadata st) = metadata st).
  { apply map_eq. intros k. rewrite initMetadata_lookup.
    destruct (metadata st !! k) eqn:Hk; [reflexivity|].
    destruct (listed k (pdfFiles st)) eqn:Hl; [|reflexivity].
    apply listed_true in Hl as (f & Hf & <-).
    rewrite Forall_forall in H. destruct (H f Hf) as [x Hx]. congruence. }
  unfold initMetadata in *.
  destruct (snd (fold_left init_one (pdfFiles st) (metadata st, false)));
    [|reflexivity].
  simpl in E. rewrite E. destruct st; reflexivity.
Qed.

Lemma initMetadata_gives_every_pdf_a_record_helper st :
  Forall (has_record (metadata (initMetadata st))) (pdfFiles st).
Proof.
  apply Forall_forall. intros pdf Hpdf. unfold has_record.
  rewrite initMetadata_lookup.
  destruct (metadata st !! key pdf); [eexists; reflexivity|].
  replace (listed (key pdf) (pdfFiles st)) with true; [eexists; reflexivity|].
  symmetry. apply listed_true. exists pdf. auto.
Qed.

(** X7: after the metadata effect every listed PDF has a record; a record
    that existed is left as it was; a record is new only under the key of a
    listed PDF that had none, and then it is the empty one; nothing but the
    metadata changes; and the effect changes nothing when every PDF has its
    record already, as after the effect itself. *)
Theorem initMetadata_gives_every_pdf_a_record (st : AppState) :
  Forall (has_record (metadata (initMetadata st))) (pdfFiles st)
  /\ (forall k m, metadata st !! k = Some m ->
        metadata (initMetadata st) !! k = Some m)
  /\ (forall k m, metadata (initMetadata st) !! k = Some m ->
        metadata st !! k = Some m
        \/ (metadata st !! k = None /\ m = emptyMetadata
            /\ listed k (pdfFiles st) = true))
  /\ files (initMetadata st) = files st
  /\ (Forall (has_record (metadata st)) (pdfFiles st) -> initMetadata st = st)
  /\ initMetadata (initMetadata st) = initMetadata st.
Proof.
  assert (Hall : Forall (has_record (metadata (initMetadata st))) (pdfFiles st)).
  { apply Forall_forall. intros pdf Hpdf. unfold has_record.
    rewrite initMetadata_lookup.
    destruct (metadata st !! key pdf); [eexists; reflexivity|].
    replace (listed (key pdf) (pdfFiles st)) with true; [eexists; reflexivity|].
    symmetry. apply listed_true. exists pdf. auto. }
  refine (conj Hall (conj _ (conj _ (conj _ (conj _ _))))).
  - intros k m H. rewrite initMetadata_lookup, H. reflexivity.
  - intros k m. rewrite initMetadata_lookup.
    destruct (metadata st !! k); [auto|].
    destruct (listed k (pdfFiles st)); [|discriminate].
    intros E. injection E as <-. auto.
  - apply initMetadata_fields.
  - apply initMetadata_complete.
  - apply initMetadata_complete.
    unfold pdfFiles in *. rewrite (proj1 (initMetadata_fields st)).
    exact Hall.
Qed.

(** ** Editing a record *)

Lemma getPdfStatus_metadata st st' k b :
  metadata st' !! k = metadata st !! k -> prefixValue st' = prefixValue st ->
  getPdfStatus st' k b = getPdfStatus st k b.
Proof. intros Hm Hp. unfold getPdfStatus. rewrite Hm, Hp. reflexivity. Qed.

(** X8: an edit fails to stay within the typed records exactly when the key
    has no record.  Otherwise the record of the key is the old one with the
    one field replaced, every other record and so the status of every other
    key is as before, the file list and the dialog are untouched, and of two
    edits of one field the later wins. *)
Theorem handleMetadataChange_edits_one_field (st : AppState) (k : jsstring)
  (field : MetaField) (value : jsstring) :
  (handleMetadataChange st k field value = None <-> metadata st !! k = None)
  /\ (forall st', handleMetadataChange st k field value = Some st' ->
      (exists meta, metadata st !! k = Some meta
         /\ metadata st' !! k = Some (set_field field value meta))
      /\ (forall k', k' <> k -> metadata st' !! k' = metadata st !! k')
      /\ (forall k' b, k' <> k -> getPdfStatus st' k' b = getPdfStatus st k' b)
      /\ files st' = files st
      /\ isAskingPrefix st' = isAskingPrefix st
      /\ prefixValue st' = prefixValue st
      /\ (forall value', handleMetadataChange st' k field value'
                         = handleMetadataChange st k field value')).
Proof.
  unfold handleMetadataChange. split.
  - destruct (metadata st !! k); split; intros H; congruence.
  - intros st' H. destruct (metadata st !! k) as [meta|] eqn:Hk;
      [|discriminate].
    injection H as <-. simpl.
    refine (conj _ (conj _ (conj _ (conj _ (conj _ (conj _ _)))))).
    + exists meta. split; [reflexivity | apply lookup_insert_eq].
    + intros k' Hne. apply lookup_insert_ne. congruence.
    + intros k' b Hne. apply getPdfStatus_metadata; [|reflexivity].
      simpl. apply lookup_insert_ne. congruence.
    + reflexivity.
    + reflexivity.
    + reflexivity.
    + intros value'. rewrite lookup_insert_eq. unfold set_metadata. simpl.
      rewrite insert_insert_eq. do 2 f_equal.
      destruct field; reflexivity.
Qed.

(** ** Uploading in several batches *)

Lemma upload_limit_helper (toLowerCase : jsstring -> jsstring)
  (st : AppState) (batch : list File) :
  batch <> [] -> length (files st) + length batch <= MAX_FILES ->
  files (handleFileSelect toLowerCase st (Some batch))
  = files st ++ List.map (toFileData toLowerCase) batch
  /\ handleFileSelect toLowerCase st (Some batch)
     = set_files (files st ++ List.map (toFileData toLowerCase) batch)
         (set_error [] st).
Proof.
  intros Hne Hfits. destruct batch as [|f batch]; [contradiction|].
  unfold handleFileSelect.
  destruct (Nat.ltb_spec MAX_FILES (length (files st) + length (f :: batch)));
    [lia | split; reflexivity].
Qed.

(** X9: two non-empty batches that fit under the limit together leave the
    same state, one after the other, as the two uploaded as one batch. *)
Theorem handleFileSelect_batches_compose (toLowerCase : jsstring -> jsstring)
  (st : AppState) (a b : list File) :
  a <> [] -> b <> [] ->
  length (files st) + length a + length b <= MAX_FILES ->
  handleFileSelect toLowerCase (handleFileSelect toLowerCase st (Some a))
    (Some b)
  = handleFileSelect toLowerCase st (Some (a ++ b)).
Proof.
  intros Ha Hb Hfit.
  destruct (upload_limit_helper toLowerCase st a Ha ltac:(lia)) as [Ea ->].
  destruct (upload_limit_helper toLowerCase st (a ++ b)) as [_ ->].
  { destruct a; [contradiction | discriminate]. }
  { rewrite length_app. lia. }
  destruct (upload_limit_helper toLowerCase
              (set_files (files st ++ List.map (toFileData toLowerCase) a)
                 (set_error [] st)) b Hb) as [_ ->].
  { simpl. rewrite length_app, length_map. lia. }
  simpl. unfold set_files, set_error. simpl.
  rewrite map_app, app_assoc. reflexivity.
Qed.

Lemma handleFileSelect_batches_compose_sample :
  handleFileSelect Sample.toLowerCase
    (handleFileSelect Sample.toLowerCase initialState
       (Some [Sample.a_file "a.txt" [1%N]]))
    (Some [Sample.a_file "scan1.pdf" [3%N]])
  = handleFileSelect Sample.toLowerCase initialState
      (Some ([Sample.a_file "a.txt" [1%N]] ++ [Sample.a_file "scan1.pdf" [3%N]])).
Proof.
  apply handleFileSelect_batches_compose;
    [discriminate | discriminate | vm_compute; lia].
Defined.

(** ** Paging *)

(** X10: with a document of [n] pages loaded and the page within 1..n, the
    two page buttons keep it within 1..n; going forward and back, or back
    and forward, returns to the page, unless the first step was held at the
    end of the range.  Going back never yields a page below 1, whatever the
    state, and going forward does nothing while no page count is known. *)
Theorem paging_stays_in_range (st : AppState) (n : N) :
  (1 <= pageNumber st <= n)%N ->
  (1 <= pageNumber (goToPrevPage st) <= n)%N
  /\ (1 <= pageNumber (goToNextPage (Some n) st) <= n)%N
  /\ ((pageNumber st < n)%N ->
      goToPrevPage (goToNextPage (Some n) st) = st)
  /\ ((1 < pageNumber st)%N ->
      goToNextPage (Some n) (goToPrevPage st) = st)
  /\ (forall st0, (1 <= pageNumber (goToPrevPage st0))%N)
  /\ (forall st0, goToNextPage None st0 = st0
                  /\ goToNextPage (Some 0%N) st0 = st0).
Proof.
  intros Hp. unfold goToPrevPage, goToNextPage, set_pageNumber. simpl.
  destruct (N.eqb_spec n 0) as [->|Hn]; [lia|].
  refine (conj _ (conj _ (conj _ (conj _ (conj _ _))))).
  - lia.
  - lia.
  - intros H. destruct st; simpl in *. f_equal. lia.
  - intros H. destruct st; simpl in *. f_equal. lia.
  - intros st0. lia.
  - intros st0. split; destruct st0; reflexivity.
Qed.

Lemma paging_stays_in_range_sample :
  (1 <= pageNumber (goToPrevPage (set_pageNumber 2 initialState)) <= 3)%N
  /\ (1 <= pageNumber (goToNextPage (Some 3%N) (set_pageNumber 2 initialState))
      <= 3)%N.
Proof.
  destruct (paging_stays_in_range (set_pageNumber 2 initialState) 3)
    as (H1 & H2 & _); [simpl; lia|].
  split; [exact H1 | exact H2].
Defined.

(** ** Reachable states *)

Lemma with_url_same (l fs : list FileData) :
  Forall2 with_url l fs ->
  List.map key fs = List.map key l
  /\ List.map isPdf fs = List.map isPdf l
  /\ length fs = length l.
Proof.
  induction 1 as [|fd fd' l fs H _ IH]; [auto|].
  destruct IH as (Hk & Hp & Hl). simpl. rewrite Hk, Hp, Hl.
  unfold with_url in H.
  destruct (isPdf fd && _); [destruct H as (u & _ & ->)|subst fd'];
    auto.
Qed.

Lemma keys_of_pdfs (l fs : list FileData) :
  List.map key fs = List.map key l -> List.map isPdf fs = List.map isPdf l ->
  List.map key (List.filter (fun f => isPdf f) fs)
  = List.map key (List.filter (fun f => isPdf f) l).
Proof.
  revert fs. induction l as [|x l IH]; intros [|y fs] Hk Hp;
    try discriminate; [reflexivity|].
  simpl in *. injection Hk as Hk0 Hk. injection Hp as Hp0 Hp.
  rewrite Hp0. destruct (isPdf x); simpl; rewrite ?Hk0, (IH fs Hk Hp);
    reflexivity.
Qed.

Lemma listed_keys k (l : list FileData) :
  listed k l = existsb (fun k' => bool_decide (k' = k)) (List.map key l).
Proof. induction l as [|x l IH]; simpl; [|rewrite IH]; reflexivity. Qed.

Lemma has_record_keys md (l : list FileData) :
  Forall (has_record md) l
  <-> Forall (fun k => is_Some (md !! k)) (List.map key l).
Proof.
  induction l as [|x l IH]; simpl; [split; constructor|].
  rewrite !Forall_cons, IH. reflexivity.
Qed.

Lemma listed_app k (a b : list FileData) :
  listed k (a ++ b) = listed k a || listed k b.
Proof. apply existsb_app. Qed.

Lemma filter_key_pdfs st k :
  pdfFiles (handleRemoveFile st k)
  = List.filter (fun f => negb (bool_decide (key f = k))) (pdfFiles st).
Proof.
  unfold pdfFiles. simpl. induction (files st) as [|x l IH]; [reflexivity|].
  simpl. destruct (bool_decide (key x = k)) eqn:Hk, (isPdf x) eqn:Hp; simpl;
    rewrite ?Hk, ?Hp, IH; reflexivity.
Qed.

Lemma export_leaves cause fuel st st' archive :
  handleConfirmExport cause fuel st = Some (st', archive) ->
  st' = exported st \/ exists e, st' = set_error e st.
Proof.
  unfold handleConfirmExport.
  destruct (negb (truthy (sanitizeSegment (prefixValue st)))).
  - intros E. injection E as <- _. eauto.
  - destruct (build_zip _ _ _); intros E; try discriminate;
      injection E as <- _; eauto.
Qed.

Lemma selectedPdf_listed st pdf :
  selectedPdf st = Some pdf ->
  pdf ∈ pdfFiles st /\ selectedPdfKey st = Some (key pdf).
Proof.
  unfold selectedPdf. intros H. apply find_some in H as [Hin Hk].
  apply bool_decide_eq_true in Hk. split; [apply list_elem_of_In, Hin | exact Hk].
Qed.

(** What a handler leaves, before the effects of the next render: the
    records may lag behind only when the number of PDFs has changed. *)
Lemma handled_sound toLowerCase st ev st1 :
  sound st -> available st ev = true -> handled toLowerCase st ev st1 ->
  length (files st1) <= MAX_FILES
  /\ (isAskingPrefix st1 = false -> prefixValue st1 = [])
  /\ (forall k, selectedPdfKey st1 = Some k -> listed k (pdfFiles st1) = true)
  /\ (length (pdfFiles st) = length (pdfFiles st1) ->
      Forall (has_record (metadata st1)) (pdfFiles st1)).
Proof.
  intros [Hlim Hpre Hrec Hsel] Hav Hev. destruct ev; simpl in Hev.
  - (* SelectFiles *)
    subst st1. unfold handleFileSelect.
    destruct fileList as [[|f batch]|]; auto.
    remember (f :: batch) as bt eqn:Hbt.
    destruct (Nat.ltb_spec MAX_FILES (length (files st) + length bt));
      [auto|].
    assert (Hp : pdfFiles (set_files
                             (files st ++ List.map (toFileData toLowerCase) bt)
                             (set_error [] st))
                 = pdfFiles st
                   ++ List.filter (fun f0 => isPdf f0)
                        (List.map (toFileData toLowerCase) bt))
      by (unfold pdfFiles; simpl; apply List.filter_app).
    rewrite Hp. clear Hp.
    generalize (List.filter (fun f0 => isPdf f0)
                  (List.map (toFileData toLowerCase) bt)).
    intros new. simpl.
    refine (conj _ (conj Hpre (conj _ _))).
    + rewrite length_app, length_map. lia.
    + intros k Hk. rewrite listed_app, (Hsel k Hk). reflexivity.
    + rewrite length_app. intros Hlen.
      assert (Hnew : new = [])
        by (destruct new; [reflexivity | simpl in Hlen; lia]).
      rewrite Hnew, app_nil_r. exact Hrec.
  - (* ClearAll *)
    subst st1. unfold handleClearAll, pdfFiles. simpl.
    refine (conj _ (conj Hpre (conj _ _))); [lia | discriminate | constructor].
  - (* RemoveFile *)
    subst st1. rewrite filter_key_pdfs.
    refine (conj _ (conj Hpre (conj _ _))).
    + simpl. etransitivity; [|exact Hlim].
      apply sublist_length, filter_sublist.
    + simpl. intros k' Hk'.
      destruct (bool_decide_reflect (selectedPdfKey st = Some k)) as [|Hne];
        [discriminate|].
      apply Hsel in Hk' as Hl. apply listed_true in Hl as (f & Hf & Hkf).
      apply listed_true. exists f. split; [|exact Hkf].
      apply list_elem_of_In, filter_In. split; [apply list_elem_of_In, Hf|].
      apply negb_true_iff, bool_decide_eq_false. congruence.
    + intros _. apply Forall_forall. intros f Hf.
      apply list_elem_of_In, filter_In in Hf as [Hf Hk].
      apply negb_true_iff, bool_decide_eq_false in Hk.
      rewrite Forall_forall in Hrec. unfold has_record. simpl.
      rewrite lookup_delete_ne by congruence.
      apply Hrec, list_elem_of_In, Hf.
  - (* SelectPdf *)
    subst st1. simpl in Hav.
    refine (conj Hlim (conj Hpre (conj _ _))); [|intros _; exact Hrec].
    simpl. intros k' E. injection E as <-. exact Hav.
  - (* ChangeMetadata *)
    destruct Hev as (pdf & Hpdf & Hch). unfold handleMetadataChange in Hch.
    destruct (metadata st !! key pdf) as [meta|]; [|discriminate].
    injection Hch as <-.
    refine (conj Hlim (conj Hpre (conj Hsel _))).
    intros _. eapply Forall_impl; [exact Hrec|].
    intros f [x Hx]. unfold has_record. simpl.
    rewrite lookup_insert. destruct (decide (key pdf = key f)); eauto.
  - (* PrevPage *)
    subst st1. refine (conj Hlim (conj Hpre (conj Hsel _))). intros _; exact Hrec.
  - (* NextPage *)
    subst st1. refine (conj Hlim (conj Hpre (conj Hsel _))). intros _; exact Hrec.
  - (* ClickExport *)
    subst st1. unfold handleExportClick.
    destruct (negb (allPdfsReady st)).
    + destruct (List.find _ (pdfFiles st)) as [pdf|] eqn:Hfind.
      * refine (conj Hlim (conj Hpre (conj _ _))); [|intros _; exact Hrec].
        simpl. intros k E. injection E as <-.
        apply find_some in Hfind as [Hin _].
        apply listed_true. exists pdf. split; [apply list_elem_of_In, Hin|reflexivity].
      * refine (conj Hlim (conj Hpre (conj Hsel _))). intros _; exact Hrec.
    + refine (conj Hlim (conj _ (conj Hsel _))); [discriminate|].
      intros _; exact Hrec.
  - (* TypePrefix *)
    subst st1. simpl in Hav. apply andb_true_iff in Hav as [_ Hask].
    refine (conj Hlim (conj _ (conj Hsel _))); [|intros _; exact Hrec].
    simpl. rewrite Hask. discriminate.
  - (* ConfirmExport *)
    destruct Hev as (cause & fuel & archive & Hex).
    apply export_leaves in Hex as [->|[e ->]].
    + refine (conj Hlim (conj _ (conj Hsel _))); [reflexivity|].
      intros _; exact Hrec.
    + refine (conj Hlim (conj Hpre (conj Hsel _))). intros _; exact Hrec.
  - (* CancelExport *)
    subst st1. refine (conj Hlim (conj _ (conj Hsel _))); [reflexivity|].
    intros _; exact Hrec.
Qed.

Lemma rendered_sound prev st1 st2 :
  length (files st1) <= MAX_FILES ->
  (isAskingPrefix st1 = false -> prefixValue st1 = []) ->
  (forall k, selectedPdfKey st1 = Some k -> listed k (pdfFiles st1) = true) ->
  (length (pdfFiles prev) = length (pdfFiles st1) ->
   Forall (has_record (metadata st1)) (pdfFiles st1)) ->
  rendered prev st1 st2 -> sound st2.
Proof.
  intros Hlim Hpre Hsel Hrec (fs & Hfs & ->).
  set (st1' := if Nat.eqb (length (pdfFiles prev)) (length (pdfFiles st1))
               then st1 else initMetadata st1).
  assert (Hst1' : files st1' = files st1
                  /\ selectedPdfKey st1' = selectedPdfKey st1
                  /\ isAskingPrefix st1' = isAskingPrefix st1
                  /\ prefixValue st1' = prefixValue st1
                  /\ Forall (has_record (metadata st1')) (pdfFiles st1)).
  { unfold st1'.
    destruct (Nat.eqb_spec (length (pdfFiles prev)) (length (pdfFiles st1)))
      as [E|_]; [repeat split; auto|].
    destruct (initMetadata_fields st1) as (? & ? & ? & ?).
    repeat split; auto.
    apply (initMetadata_gives_every_pdf_a_record_helper st1). }
  destruct Hst1' as (Hf & Hs & Ha & Hp & Hr).
  assert (Hsame : List.map key fs = List.map key (files st1)
                  /\ List.map isPdf fs = List.map isPdf (files st1)
                  /\ length fs = length (files st1)).
  { destruct (Nat.eqb (length (files prev)) (length (files st1)));
      [subst fs; auto | apply with_url_same, Hfs]. }
  destruct Hsame as (Hk & Hi & Hl).
  pose proof (keys_of_pdfs _ _ Hk Hi) as Hpk.
  split; simpl.
  - rewrite Hl. exact Hlim.
  - rewrite Ha, Hp. exact Hpre.
  - apply has_record_keys. unfold pdfFiles. simpl. rewrite Hpk.
    apply has_record_keys. exact Hr.
  - intros k Hsk. rewrite Hs in Hsk. rewrite listed_keys.
    unfold pdfFiles. simpl. rewrite Hpk, <- listed_keys.
    exact (Hsel k Hsk).
Qed.

Lemma reachable_sound toLowerCase st : reachable toLowerCase st -> sound st.
Proof.
  induction 1 as [|st ev st1 st2 _ IH Hav Hev Hren].
  - split; simpl; [lia | reflexivity | constructor | discriminate].
  - destruct (handled_sound _ _ _ _ IH Hav Hev) as (H1 & H2 & H3 & H4).
    exact (rendered_sound _ _ _ H1 H2 H3 H4 Hren).
Qed.

Lemma rendered_same prev st :
  length (files prev) = length (files st) ->
  length (pdfFiles prev) = length (pdfFiles st) ->
  rendered prev st st.
Proof.
  intros Hf Hp. unfold rendered.
  rewrite Hf, Hp, !PeanoNat.Nat.eqb_refl.
  exists (files st). split; [reflexivity|].
  destruct st; reflexivity.
Qed.

Lemma uploaded_reachable : reachable Sample.toLowerCase Trace.uploaded.
Proof.
  apply (reach_event _ initialState
           (SelectFiles (Some [Trace.text_file; Trace.pdf_file]))
           (handleFileSelect Sample.toLowerCase initialState
              (Some [Trace.text_file; Trace.pdf_file]))).
  - constructor.
  - reflexivity.
  - reflexivity.
  - exists [Sample.a_txt1; Trace.scan1]. split; [|reflexivity].
    change (Forall2 with_url [Sample.a_txt1; Sample.scan1]
              [Sample.a_txt1; Trace.scan1]).
    apply Forall2_cons_2; [|apply Forall2_cons_2; [|apply Forall2_nil_2]].
    + vm_compute. reflexivity.
    + exists (js "blob:1"). split; vm_compute; reflexivity.
Qed.

Lemma selected_reachable : reachable Sample.toLowerCase Trace.selected.
Proof.
  apply (reach_event _ Trace.uploaded (SelectPdf (key Trace.scan1))
           Trace.selected Trace.selected uploaded_reachable).
  - vm_compute. reflexivity.
  - reflexivity.
  - apply rendered_same; reflexivity.
Qed.

Lemma filled_reachable : reachable Sample.toLowerCase Trace.filled.
Proof.
  pose proof selected_reachable as R0.
  set (s1 := Trace.edit Distributor "ACME" Trace.selected).
  set (s2 := Trace.edit InvoiceNumber "12" s1).
  assert (R1 : reachable Sample.toLowerCase s1).
  { apply (reach_event _ _ (ChangeMetadata Distributor (js "ACME")) s1 s1 R0).
    - vm_compute. reflexivity.
    - exists Trace.scan1. split; vm_compute; reflexivity.
    - apply rendered_same; vm_compute; reflexivity. }
  assert (R2 : reachable Sample.toLowerCase s2).
  { apply (reach_event _ _ (ChangeMetadata InvoiceNumber (js "12")) s2 s2 R1).
    - vm_compute. reflexivity.
    - exists Trace.scan1. split; vm_compute; reflexivity.
    - apply rendered_same; vm_compute; reflexivity. }
  apply (reach_event _ _ (ChangeMetadata Date (js "2024-01-02"))
           Trace.filled Trace.filled R2).
  - vm_compute. reflexivity.
  - exists Trace.scan1. split; vm_compute; reflexivity.
  - apply rendered_same; vm_compute; reflexivity.
Qed.

Lemma typed_reachable : reachable Sample.toLowerCase Trace.typed.
Proof.
  assert (R : reachable Sample.toLowerCase Trace.asking).
  { apply (reach_event _ _ ClickExport Trace.asking Trace.asking
             filled_reachable).
    - vm_compute. reflexivity.
    - reflexivity.
    - apply rendered_same; vm_compute; reflexivity. }
  apply (reach_event _ _ (TypePrefix (js "p")) Trace.typed Trace.typed R).
  - vm_compute. reflexivity.
  - reflexivity.
  - apply rendered_same; vm_compute; reflexivity.
Qed.

(** ** The gate and the export in the states the page reaches *)




Lemma late_reachable : reachable Sample.toLowerCase Trace.late.
Proof.
  apply (reach_event _ Trace.typed (SelectFiles (Some [Trace.late_file]))
           (handleFileSelect Sample.toLowerCase Trace.typed
              (Some [Trace.late_file]))
           Trace.late typed_reachable).
  - vm_compute. reflexivity.
  - reflexivity.
  - exists [Sample.a_txt1; Trace.scan1; Trace.scan2]. split; [|reflexivity].
    change (Forall2 with_url
              [Sample.a_txt1; Trace.scan1; Sample.upload Trace.late_file]
              [Sample.a_txt1; Trace.scan1; Trace.scan2]).
    apply Forall2_cons_2;
      [|apply Forall2_cons_2; [|apply Forall2_cons_2; [|apply Forall2_nil_2]]].
    + vm_compute. reflexivity.
    + vm_compute. reflexivity.
    + exists (js "blob:2"). split; vm_compute; reflexivity.
Qed.

(** C7: the code departs from the rule at this input.  A text file and a
    PDF are uploaded, the PDF is filled in, Export is clicked and the
    prefix [p] typed; then, with the dialog still open, a second PDF is
    uploaded.  The page reaches the state [Trace.late]: the new PDF has a
    blank record, so its status with [includePrefix=true] is missing and
    the gate is closed; yet Confirm is enabled, and the export reports no
    error and assigns the unready PDF the name [p---.pdf], where the rule
    asks for an error and no archive.  The handler tests the prefix only,
    and the upload control stays enabled while the dialog is open. *)
Theorem export_archives_unready_late_upload :
  reachable Sample.toLowerCase Trace.late
  /\ metadata Trace.late !! key Trace.scan2 = Some Sample.blank
  /\ status (getPdfStatus Trace.late (key Trace.scan2) true) = missing
  /\ allPdfsReady Trace.late = false
  /\ available Trace.late ConfirmExport = true
  /\ handleConfirmExport [] 4 Trace.late
     = Some (exported Trace.late,
             Some {| entries := [(js "a.txt", [1%N]);
                                 (js "p-ACME-12-2024-01-02.pdf", [3%N]);
                                 (js "p---.pdf", [4%N; 4%N])];
                     download := js "p-export.zip" |})
  /\ error (exported Trace.late) = []
  /\ isAskingPrefix (exported Trace.late) = false.
Proof.
  split; [exact late_reachable|].
  repeat split; vm_compute; reflexivity.
Qed.

(** X11: however the page is used, the list never holds more than
    [MAX_FILES] files, and the upload control is disabled exactly when it
    holds that many. *)
Theorem reachable_within_limit toLowerCase st :
  reachable toLowerCase st ->
  length (files st) <= MAX_FILES
  /\ (isAtLimit st = true <-> length (files st) = MAX_FILES).
Proof.
  intros R. destruct (reachable_sound _ _ R) as [Hlim _ _ _].
  split; [exact Hlim|]. unfold isAtLimit.
  rewrite Nat.leb_le. lia.
Qed.

Lemma reachable_within_limit_sample :
  length (files Trace.typed) <= MAX_FILES
  /\ (isAtLimit Trace.typed = true <-> length (files Trace.typed) = MAX_FILES).
Proof. exact (reachable_within_limit _ _ typed_reachable). Defined.

Lemma forallb_attention {A : Type} (f : A -> bool) (l : list A) :
  forallb f l = true <-> length (List.filter (fun x => negb (f x)) l) = 0.
Proof.
  induction l as [|x l IH]; simpl; [split; reflexivity|].
  destruct (f x); simpl; [exact IH | split; [discriminate | lia]].
Qed.

(** X12: whenever the prefix dialog is closed the prefix is empty.  So the
    status the gate computes with [includePrefix=true] is the status the
    list displays, and the Export button is enabled exactly when the count
    of PDFs needing attention is zero. *)
Theorem reachable_closed_dialog_has_empty_prefix toLowerCase st :
  reachable toLowerCase st -> isAskingPrefix st = false ->
  prefixValue st = []
  /\ (forall k, getPdfStatus st k true = getPdfStatus st k false)
  /\ (allPdfsReady st = true <-> needAttention st = 0).
Proof.
  intros R Hclosed. destruct (reachable_sound _ _ R) as [_ Hpre _ _].
  pose proof (Hpre Hclosed) as Hp. split; [exact Hp|].
  assert (Hsame : forall k, getPdfStatus st k true = getPdfStatus st k false)
    by (intros k; apply status_without_prefix_rule; left; exact Hp).
  split; [exact Hsame|].
  unfold allPdfsReady, needAttention.
  rewrite <- forallb_attention.
  assert (E : forallb (is_ready st true) (pdfFiles st)
              = forallb (is_ready st false) (pdfFiles st)).
  { induction (pdfFiles st) as [|pdf l IH]; [reflexivity|].
    simpl. rewrite IH. unfold is_ready. rewrite Hsame. reflexivity. }
  rewrite E. reflexivity.
Qed.

Lemma reachable_closed_dialog_has_empty_prefix_sample :
  prefixValue Trace.filled = []
  /\ (forall k, getPdfStatus Trace.filled k true
                = getPdfStatus Trace.filled k false)
  /\ (allPdfsReady Trace.filled = true <-> needAttention Trace.filled = 0).
Proof.
  apply (reachable_closed_dialog_has_empty_prefix _ _ filled_reachable).
  reflexivity.
Defined.

(** ** The object after the loops *)

Lemma build_zip_ok fuel st :
  length (files st) < fuel ->
  Forall (has_record (metadata st)) (pdfFiles st) ->
  exists z,
    build_zip fuel st (sanitizeSegment (prefixValue st)) = Ok z
    /\ consistent z
    /\ Spec.follows (metadata st) (prefixValue st) ∅
         (otherFiles st ++ pdfFiles st) (zipContents z).
Proof.
  intros Hfuel Hrec. rewrite build_zip_items. apply records_of_items in Hrec.
  destruct (for_of_add_item_ok fuel (metadata st) (prefixValue st)
              (otherFiles st ++ pdfFiles st) emptyZip consistent_empty)
    as (z & es & Hrun & Hzc & Hz & Hf); [|exact Hrec|].
  - rewrite items_length. simpl. exact Hfuel.
  - exists z. split; [exact Hrun|]. split; [exact Hz|].
    simpl in Hzc. rewrite Hzc. exact Hf.
Qed.

Lemma proto_name_no_hyphen : hyphen ∉ proto_name.
Proof.
  rewrite list_elem_of_In. vm_compute. intuition discriminate.
Qed.

Lemma numbered_other_hyphen nm k : hyphen ∈ numbered_other nm k.
Proof.
  unfold numbered_other. change (js "-") with [hyphen].
  destruct (0 <? lastIndexOf nm dot)%Z;
    apply elem_of_app; right; apply elem_of_cons; left; reflexivity.
Qed.

Lemma renamed_hyphen prefix record rest :
  hyphen ∈ Spec.renamed prefix record ++ rest.
Proof.
  unfold Spec.renamed. change (js "-") with [hyphen].
  apply elem_of_app. left. apply elem_of_app. right.
  apply elem_of_cons. left. reflexivity.
Qed.

(** A name the policy gives is the original name of a passthrough item, or
    it has a hyphen. *)
Lemma chosen_for_name md prefix used item n :
  Spec.chosen_for md prefix used item n ->
  (isPdf item = false /\ n = name (file item)) \/ hyphen ∈ n.
Proof.
  unfold Spec.chosen_for. destruct (isPdf item).
  - intros (record & _ & _ & [[_ ->]|(_ & k & _ & -> & _)]); right;
      apply renamed_hyphen.
  - intros (_ & [[_ ->]|(_ & k & _ & -> & _)]);
      [left; split; reflexivity | right; apply numbered_other_hyphen].
Qed.

Lemma follows_names md prefix used items es :
  Spec.follows md prefix used items es ->
  Forall (fun item => isPdf item = false -> name (file item) <> proto_name)
    items ->
  Forall (fun e => fst e <> proto_name) es.
Proof.
  revert used es. induction items as [|item items IH]; intros used [|[n b] es];
    simpl; try contradiction; [constructor|].
  intros (_ & Hch & Hf) Hall. inversion Hall as [|? ? Hitem Hrest]; subst.
  constructor; [|exact (IH _ _ Hf Hrest)].
  simpl. destruct (chosen_for_name _ _ _ _ _ Hch) as [[Hpdf ->]|Hh].
  - exact (Hitem Hpdf).
  - intros ->. exact (proto_name_no_hyphen Hh).
Qed.

Lemma other_names_of_items st :
  Forall (fun item => name (file item) <> proto_name) (otherFiles st) ->
  Forall (fun item => isPdf item = false -> name (file item) <> proto_name)
    (otherFiles st ++ pdfFiles st).
Proof.
  intros H. apply Forall_app. split.
  - eapply Forall_impl; [exact H|]. intros x Hx _. exact Hx.
  - eapply Forall_impl; [apply filter_Forall|].
    intros x Hx E. simpl in Hx. congruence.
Qed.

Lemma zipObject_snoc es e : zipObject (es ++ [e]) = assign (zipObject es) e.
Proof. unfold zipObject. rewrite fold_left_app. reflexivity. Qed.

(** Assignments under distinct names, none of them [__proto__], leave a
    plain object with exactly the properties assigned. *)
Lemma zipObject_plain es :
  NoDup (List.map fst es) ->
  Forall (fun e => fst e <> proto_name) es ->
  exists m,
    zipObject es = Plain m
    /\ base.size m = length es
    /\ forall n b, m !! n = Some b <-> (n, b) ∈ es.
Proof.
  induction es as [|[n b] es IH] using rev_ind; intros Hnd Hall.
  - exists ∅. split; [reflexivity|]. split; [apply map_size_empty|].
    intros n b. rewrite lookup_empty. split; [discriminate|].
    intros H. inversion H.
  - rewrite map_app in Hnd. apply NoDup_app in Hnd as (Hnd & Hout & _).
    apply Forall_app in Hall as [Hall Hlast].
    inversion Hlast as [|? ? Hn _]; subst. simpl in Hn.
    destruct (IH Hnd Hall) as (m & Hm & Hsize & Hlook).
    assert (Hfree : m !! n = None).
    { destruct (m !! n) as [b'|] eqn:E; [|reflexivity].
      apply Hlook in E. destruct (Hout n).
      - apply list_elem_of_In, in_map_iff. exists (n, b').
        split; [reflexivity | apply list_elem_of_In, E].
      - simpl. apply elem_of_cons. left. reflexivity. }
    exists (<[n := b]> m). rewrite zipObject_snoc, Hm.
    unfold assign. cbn [fst snd].
    rewrite bool_decide_eq_false_2 by exact Hn.
    split; [reflexivity|]. split.
    + rewrite map_size_insert_None by exact Hfree.
      rewrite length_app, Hsize. simpl. lia.
    + intros n' b'. rewrite lookup_insert_Some, elem_of_app, Hlook.
      rewrite list_elem_of_singleton. split.
      * intros [[-> ->]|[_ H]]; [right; reflexivity | left; exact H].
      * intros [H|[= -> ->]]; [|left; split; reflexivity].
        right. split; [|exact H]. intros ->.
        apply Hlook in H. congruence.
Qed.

(** An assignment under [__proto__] creates no property: the object is
    no longer the plain one, whatever else is assigned. *)
Lemma zipObject_proto es :
  proto_name ∈ List.map fst es -> zipObject es = Reparented.
Proof.
  unfold zipObject. generalize (Plain ∅).
  induction es as [|[n b] es IH]; intros o Hin; [inversion Hin|].
  cbn [fold_left]. simpl in Hin. apply elem_of_cons in Hin as [E|Hin].
  - subst n. assert (Hgone : forall l, fold_left assign l Reparented = Reparented)
      by (induction l; [reflexivity | assumption]).
    destruct o; cbn [assign fst]; [|apply Hgone].
    rewrite bool_decide_eq_true_2 by reflexivity. apply Hgone.
  - exact (IH _ Hin).
Qed.




Lemma find_pointwise {A : Type} (f g : A -> bool) (l : list A) :
  (forall x, f x = g x) -> List.find f l = List.find g l.
Proof.
  intros H. induction l as [|x l IH]; simpl; [reflexivity|].
  rewrite H, IH. reflexivity.
Qed.

Lemma existsb_find {A : Type} (f : A -> bool) (l : list A) :
  existsb f l = true -> exists x, List.find f l = Some x /\ f x = true.
Proof.
  induction l as [|y l IH]; simpl; [discriminate|].
  destruct (f y) eqn:Hy; [eauto | exact IH].
Qed.

(** X14: however the page is used, a selection names a listed PDF that has
    a record: the metadata form is shown for it, and every edit made
    through the form stays within the typed records. *)
Theorem reachable_selection_has_record toLowerCase st :
  reachable toLowerCase st ->
  forall k, selectedPdfKey st = Some k ->
  exists pdf meta,
    selectedPdf st = Some pdf /\ key pdf = k
    /\ metadata st !! k = Some meta
    /\ forall field value,
         handleMetadataChange st k field value
         = Some (set_metadata (<[k := set_field field value meta]> (metadata st))
                   st).
Proof.
  intros R k Hk. destruct (reachable_sound _ _ R) as [_ _ Hrec Hsel].
  pose proof (Hsel k Hk) as Hl. unfold listed in Hl.
  assert (Hfind : exists pdf, selectedPdf st = Some pdf /\ key pdf = k).
  { unfold selectedPdf. rewrite Hk.
    destruct (existsb_find _ _ Hl) as (pdf & Hf & Hkp).
    apply bool_decide_eq_true in Hkp. exists pdf. split; [|exact Hkp].
    rewrite <- Hf. apply find_pointwise. intros f.
    apply bool_decide_ext. split; congruence. }
  destruct Hfind as (pdf & Hpdf & Hkp).
  destruct (selectedPdf_listed _ _ Hpdf) as [Hin _].
  rewrite Forall_forall in Hrec. destruct (Hrec pdf Hin) as [meta Hmeta].
  rewrite Hkp in Hmeta.
  exists pdf, meta. repeat split; try assumption.
  intros field value. unfold handleMetadataChange. rewrite Hmeta. reflexivity.
Qed.

Lemma reachable_selection_has_record_sample :
  exists pdf meta,
    selectedPdf Trace.selected = Some pdf /\ key pdf = key Trace.scan1
    /\ metadata Trace.selected !! key Trace.scan1 = Some meta
    /\ forall field value,
         handleMetadataChange Trace.selected (key Trace.scan1) field value
         = Some (set_metadata
                   (<[key Trace.scan1 := set_field field value meta]>
                      (metadata Trace.selected))
                   Trace.selected).
Proof.
  apply (reachable_selection_has_record _ _ selected_reachable).
  reflexivity.
Defined.

(** ** More on the names of the archive *)

Lemma NoDup_not_in_take {A : Type} (l : list A) i x :
  NoDup l -> l !! i = Some x -> x ∉ take i l.
Proof.
  intros Hnd Hi Hin. apply list_elem_of_lookup_1 in Hin as [j Hj].
  apply lookup_take_Some in Hj as [Hj Hlt].
  pose proof (NoDup_lookup _ _ _ _ Hnd Hi Hj). lia.
Qed.

(** X15: when the passthrough items have pairwise distinct names, none of
    them [__proto__], every one of them is assigned under its original
    name, before any renamable item and in the order listed, and the object
    left for [zipSync] holds its bytes under that name, whatever the
    renamable items are called. *)
Theorem distinct_passthrough_names_kept fuel st :
  length (files st) < fuel ->
  Forall (has_record (metadata st)) (pdfFiles st) ->
  NoDup (List.map (fun item => name (file item)) (otherFiles st)) ->
  Forall (fun item => name (file item) <> proto_name) (otherFiles st) ->
  exists z m,
    build_zip fuel st (sanitizeSegment (prefixValue st)) = Ok z
    /\ take (length (otherFiles st)) (List.map fst (zipContents z))
       = List.map (fun item => name (file item)) (otherFiles st)
    /\ zipObject (zipContents z) = Plain m
    /\ forall item, item ∈ otherFiles st ->
         m !! name (file item) = Some (bytes (file item)).
Proof.
  intros Hfuel Hrec Hnd Hnames.
  destruct (build_zip_ok fuel st Hfuel Hrec) as (z & Hz & [_ Hndz] & Hf).
  pose proof (follows_names _ _ _ _ _ Hf (other_names_of_items st Hnames))
    as Hall.
  destruct (zipObject_plain _ Hndz Hall) as (m & Hm & _ & Hlook).
  exists z, m. split; [exact Hz|].
  set (a := {| entries := zipContents z; download := [] |}).
  change (List.map fst (zipContents z)) with (names a).
  change (zipContents z) with (entries a) in Hf.
  set (orig := List.map (fun item => name (file item)) (otherFiles st)) in *.
  assert (H : forall i, i <= length (otherFiles st) ->
                        take i (names a) = take i orig).
  { induction i as [|i IH]; intros Hi; [reflexivity|].
    destruct (lookup_lt_is_Some_2 (otherFiles st) i ltac:(lia)) as [item Hitem].
    destruct (follows_other st a i item Hf Hitem) as (n & Hn & Hch).
    assert (Horig : orig !! i = Some (name (file item))).
    { unfold orig.
      change (List.map (fun item0 => name (file item0)) (otherFiles st))
        with ((fun item0 => name (file item0)) <$> otherFiles st).
      rewrite list_lookup_fmap, Hitem. reflexivity. }
    rewrite IH in Hch by lia.
    assert (E : n = name (file item)).
    { apply (chosen_candidate_free _ _ _ _ Hch).
      rewrite elem_of_list_to_set.
      exact (NoDup_not_in_take _ _ _ Hnd Horig). }
    rewrite (take_S_r _ _ _ Hn), (take_S_r _ _ _ Horig), IH, E by lia.
    reflexivity. }
  assert (Htake : take (length (otherFiles st)) (names a) = orig).
  { rewrite (H _ (le_n _)). apply take_ge. unfold orig.
    rewrite length_map. lia. }
  split; [exact Htake|]. split; [exact Hm|].
  intros item Hin. apply list_elem_of_lookup_1 in Hin as [i Hi].
  destruct (other_item st i item Hi) as [Hitem _].
  destruct (follows_lookup _ _ _ _ _ _ _ Hf Hitem) as (n & Hn & He & _).
  assert (Hlt : i < length (otherFiles st))
    by (apply lookup_lt_is_Some_1; eexists; exact Hi).
  assert (E : n = name (file item)).
  { assert (Hn' : take (length (otherFiles st)) (names a) !! i = Some n).
    { rewrite lookup_take_lt by exact Hlt. exact Hn. }
    rewrite Htake in Hn'. unfold orig in Hn'.
    change (List.map (fun item0 => name (file item0)) (otherFiles st))
      with ((fun item0 => name (file item0)) <$> otherFiles st) in Hn'.
    rewrite list_lookup_fmap, Hi in Hn'. simpl in Hn'. congruence. }
  apply Hlook. rewrite <- E.
  exact (list_elem_of_lookup_2 _ _ _ He).
Qed.

Lemma distinct_passthrough_names_kept_sample :
  exists z m,
    build_zip 4 Trace.distinct (sanitizeSegment (prefixValue Trace.distinct))
    = Ok z
    /\ take (length (otherFiles Trace.distinct))
         (List.map fst (zipContents z))
       = List.map (fun item => name (file item)) (otherFiles Trace.distinct)
    /\ zipObject (zipContents z) = Plain m
    /\ forall item, item ∈ otherFiles Trace.distinct ->
         m !! name (file item) = Some (bytes (file item)).
Proof.
  apply distinct_passthrough_names_kept.
  - vm_compute. lia.
  - change (pdfFiles Trace.distinct) with [Sample.scan1].
    constructor; [|constructor].
    exists Sample.acme1. vm_compute. reflexivity.
  - apply (bool_decide_unpack _). vm_compute. exact I.
  - apply (bool_decide_unpack _). vm_compute. exact I.
Defined.








(** ** The CSV route *)

Lemma endsWith_iff (s suffix : jsstring) :
  endsWith s suffix = true <-> exists base, s = base ++ suffix.
Proof.
  unfold endsWith. rewrite bool_decide_eq_true. split.
  - intros E. exists (take (length s - length suffix) s).
    rewrite <- (take_drop (length s - length suffix) s) at 1.
    rewrite E. reflexivity.
  - intros [base ->]. rewrite length_app.
    replace (length base + length suffix - length suffix) with (length base)
      by lia.
    apply drop_app_length.
Qed.

Lemma startsWith_iff (s sub : jsstring) :
  Cm2pohoda.startsWith s sub = true <-> exists b, s = sub ++ b.
Proof.
  revert s. induction sub as [|y sub IH]; intros s.
  - destruct s; simpl; split; eauto.
  - destruct s as [|x s]; simpl.
    + split; [discriminate | intros [b E]; discriminate].
    + rewrite andb_true_iff, N.eqb_eq, IH. split.
      * intros [-> [b ->]]. eauto.
      * intros [b E]. injection E as -> ->. eauto.
Qed.

Lemma includes_iff (s sub : jsstring) :
  Cm2pohoda.includes s sub = true <-> exists a b, s = a ++ sub ++ b.
Proof.
  induction s as [|x s IH].
  - cbn [Cm2pohoda.includes]. rewrite orb_false_r, startsWith_iff. split.
    + intros [b E]. exists [], b. exact E.
    + intros (a & b & E). destruct a; [eauto | discriminate].
  - cbn [Cm2pohoda.includes]. rewrite orb_true_iff, startsWith_iff, IH. split.
    + intros [[b E]|(a & b & E)].
      * exists [], b. exact E.
      * exists (x :: a), b. rewrite E. reflexivity.
    + intros ([|y a] & b & E).
      * left. exists b. exact E.
      * right. injection E as -> E. eauto.
Qed.

(** X17: the CSV route accepts a file exactly when its name ends in [.csv]
    or its type holds [csv], in this very case.  An accepted file replaces
    the selection and clears the preview and the error, so that a parse
    which yields rows shows the first as header and the others as rows, and
    a parse which yields none, or fails, shows no table.  A rejected file
    leaves the selection and the preview as they were. *)
Theorem csv_accepted_iff_named_or_typed_csv (st : Cm2pohoda.State) (f : File) :
  (((exists base, name f = base ++ js ".csv")
    \/ (exists a b, type f = a ++ js "csv" ++ b)) ->
   Cm2pohoda.handleFile st f
   = {| Cm2pohoda.selectedFile := Some f; Cm2pohoda.parsedData := None;
        Cm2pohoda.error := [] |}
   /\ (forall first rest,
         Cm2pohoda.complete (Cm2pohoda.handleFile st f) (Some (first :: rest))
         = {| Cm2pohoda.selectedFile := Some f;
              Cm2pohoda.parsedData :=
                Some {| Cm2pohoda.fields := first; Cm2pohoda.rows := rest |};
              Cm2pohoda.error := [] |})
   /\ Cm2pohoda.parsedData
        (Cm2pohoda.complete (Cm2pohoda.handleFile st f) (Some [])) = None
   /\ Cm2pohoda.parsedData
        (Cm2pohoda.complete (Cm2pohoda.handleFile st f) None) = None
   /\ (forall msg,
         Cm2pohoda.parsedData
           (Cm2pohoda.failed (Cm2pohoda.handleFile st f) msg) = None))
  /\ (~ ((exists base, name f = base ++ js ".csv")
         \/ (exists a b, type f = a ++ js "csv" ++ b)) ->
      Cm2pohoda.handleFile st f
      = {| Cm2pohoda.selectedFile := Cm2pohoda.selectedFile st;
           Cm2pohoda.parsedData := Cm2pohoda.parsedData st;
           Cm2pohoda.error := js "Please select a valid CSV file" |})
  /\ (forall rest, Cm2pohoda.onFileSelect st (Some (f :: rest))
                   = Cm2pohoda.handleFile st f)
  /\ Cm2pohoda.onFileSelect st (Some []) = st
  /\ Cm2pohoda.onFileSelect st None = st.
Proof.
  assert (Hacc : endsWith (name f) (js ".csv") = true
                 \/ Cm2pohoda.includes (type f) (js "csv") = true
                 <-> (exists base, name f = base ++ js ".csv")
                     \/ (exists a b, type f = a ++ js "csv" ++ b))
    by (rewrite endsWith_iff, includes_iff; reflexivity).
  refine (conj _ (conj _ (conj _ (conj _ _)))); try reflexivity.
  - intros H. apply Hacc in H.
    assert (E : Cm2pohoda.handleFile st f
                = {| Cm2pohoda.selectedFile := Some f;
                     Cm2pohoda.parsedData := None; Cm2pohoda.error := [] |}).
    { unfold Cm2pohoda.handleFile.
      destruct H as [-> | ->]; [reflexivity|].
      rewrite andb_false_r. reflexivity. }
    rewrite E. repeat split.
  - intros H. unfold Cm2pohoda.handleFile.
    destruct (endsWith (name f) (js ".csv")) eqn:E1;
      [destruct H; apply Hacc; auto|].
    destruct (Cm2pohoda.includes (type f) (js "csv")) eqn:E2;
      [destruct H; apply Hacc; auto|].
    reflexivity.
Qed.
